(** * Hager-Zhang line search: the batched search controller

    A shallow embedding of
    [tensorflow_probability/python/optimizer/linesearch/hager_zhang.py]
    and the properties of its controller: input validation, step-size
    repair, the secant2 / shrinkage check / bisection trip, the main loop
    and the way the result record is assembled.

    Conventions of the embedding.
    - A tensor of shape [n] is a function from the index to the element;
      [n] is the batch size, and [reduce_any] ranges over indices below [n].
    - Floating-point numbers are the IEEE 754 binary numbers of the standard
      library's [spec_float], for a working dtype given by [prec] and [emax]
      (float32 is [prec = 24], [emax = 128]).
    - The int32 scalars [iterations] and [func_evals] are integers of [Z].
    - Every call of [value_and_gradients_function] made by this module is
      recorded, in order, in a trace of the arguments it was called with.
    - [tf.while_loop] is run with a fuel: [None] means the fuel ran out. *)

From Stdlib Require Import ZArith List Bool Lia.
From Stdlib Require Import Floats.SpecFloat.
Import ListNotations.

Local Open Scope Z_scope.

(** ** Tensors *)

Definition Tensor (A : Type) : Type := nat -> A.

Definition tf_where {A : Type} (c : Tensor bool) (t e : Tensor A) : Tensor A :=
  fun i => if c i then t i else e i.

Definition t_and (a b : Tensor bool) : Tensor bool := fun i => a i && b i.
Definition t_or (a b : Tensor bool) : Tensor bool := fun i => a i || b i.
Definition t_not (a : Tensor bool) : Tensor bool := fun i => negb (a i).

Infix "&&&" := t_and (at level 40, left associativity).
Infix "|||" := t_or (at level 50, left associativity).
Notation "~~ a" := (t_not a) (at level 35, right associativity).

(** [tf.reduce_any] over a batch of [n] elements. *)
Definition reduce_any (n : nat) (m : Tensor bool) : bool :=
  existsb m (seq 0 n).

(** ** Floating point *)

Definition float : Set := spec_float.

Section Dtype.

Variables prec emax : Z.

Definition fzero : float := S754_zero false.
Definition fone : float := SFone prec emax.
Definition ftwo : float := SFldexp prec emax fone 1.

(** [tf.math.is_finite] on one element: neither an infinity nor a NaN. *)
Definition float_is_finite (a : float) : bool :=
  match a with
  | S754_zero _ | S754_finite _ _ _ => true
  | S754_infinity _ | S754_nan => false
  end.

(** [a >= b] on one element; false as soon as one side is a NaN. *)
Definition fge (a b : float) : bool := SFleb b a.
(** [a < b] and [a > b] on one element. *)
Definition flt (a b : float) : bool := SFltb a b.
Definition fgt (a b : float) : bool := SFltb b a.

(** [tf.math.nextafter] on one element: the next representable value after
    [a] in the direction of [b]. *)
Definition nextafter (a b : float) : float :=
  match SFcompare a b with
  | None => S754_nan
  | Some Eq => b
  | Some Lt => SFsucc prec emax a
  | Some Gt => SFpred prec emax a
  end.

Definition tf_is_finite (t : Tensor float) : Tensor bool :=
  fun i => float_is_finite (t i).
Definition tf_nextafter (a b : Tensor float) : Tensor float :=
  fun i => nextafter (a i) (b i).
Definition tf_ge (a b : Tensor float) : Tensor bool := fun i => fge (a i) (b i).
Definition tf_lt (a b : Tensor float) : Tensor bool := fun i => flt (a i) (b i).
Definition tf_gt (a b : Tensor float) : Tensor bool := fun i => fgt (a i) (b i).
Definition tf_add (a b : Tensor float) : Tensor float :=
  fun i => SFadd prec emax (a i) (b i).
Definition tf_sub (a b : Tensor float) : Tensor float :=
  fun i => SFsub prec emax (a i) (b i).
Definition tf_mul (a b : Tensor float) : Tensor float :=
  fun i => SFmul prec emax (a i) (b i).
Definition tf_div (a b : Tensor float) : Tensor float :=
  fun i => SFdiv prec emax (a i) (b i).
Definition tf_abs (a : Tensor float) : Tensor float := fun i => SFabs (a i).
(** A scalar used where a tensor is expected is broadcast. *)
Definition broadcast {A : Type} (a : A) : Tensor A := fun _ => a.

(** [def _very_close(x, y): return tf.math.nextafter(x, y) >= y] *)
Definition _very_close (x y : Tensor float) : Tensor bool :=
  tf_ge (tf_nextafter x y) y.

(** [_machine_eps(dtype)]: [np.finfo(dtype).eps], the gap between 1 and the
    next representable value, [2^(1 - prec)]. *)
Definition _machine_eps : float := SFldexp prec emax fone (1 - prec).

(** [np.ceil(-np.log2(v))] for a positive finite [v = m * 2^e]:
    [floor (log2 v)] is [e + digits m - 1]. *)
Definition ceil_neg_log2 (v : float) : Z :=
  match v with
  | S754_finite false m e => - (e + Zpos (digits2_pos m) - 1)
  | _ => 0
  end.

End Dtype.


(** ** Evaluation points and the search state *)

(** The namedtuple returned by [value_and_gradients_function]: the fields
    [x], [f] and [df], each a tensor of shape [n]. *)
Record ValueAndGradient : Type := mkVal {
  val_x : Tensor float;
  val_f : Tensor float;
  val_df : Tensor float
}.

(** [HagerZhangLineSearchResult] *)
Record HagerZhangLineSearchResult : Type := mkResult {
  converged : Tensor bool;
  failed : Tensor bool;
  func_evals : Z;
  iterations : Z;
  left : ValueAndGradient;
  right : ValueAndGradient
}.

(** [r._replace(converged=c)] *)
Definition replace_converged (r : HagerZhangLineSearchResult) (c : Tensor bool)
  : HagerZhangLineSearchResult :=
  mkResult c (failed r) (func_evals r) (iterations r) (left r) (right r).

(** [r._replace(failed=fl, func_evals=e)] *)
Definition replace_failed_func_evals (r : HagerZhangLineSearchResult)
  (fl : Tensor bool) (e : Z) : HagerZhangLineSearchResult :=
  mkResult (converged r) fl e (iterations r) (left r) (right r).

(** The result records of the primitives of [hager_zhang_lib], with the
    fields this module reads. *)
Record BracketResult : Type := mkBracketResult {
  br_iteration : Z;
  br_failed : Tensor bool;
  br_num_evals : Z;
  br_left : ValueAndGradient;
  br_right : ValueAndGradient
}.

Record Secant2Result : Type := mkSecant2Result {
  s2_converged : Tensor bool;
  s2_failed : Tensor bool;
  s2_num_evals : Z;
  s2_left : ValueAndGradient;
  s2_right : ValueAndGradient
}.

Record UpdateResult : Type := mkUpdateResult {
  up_iteration : Z;
  up_failed : Tensor bool;
  up_num_evals : Z;
  up_left : ValueAndGradient;
  up_right : ValueAndGradient
}.

(** Two evaluation points agree on element [i]. *)
Definition val_eq_at (i : nat) (a b : ValueAndGradient) : Prop :=
  val_x a i = val_x b i /\ val_f a i = val_f b i /\ val_df a i = val_df b i.

(** Modelled from the spec: [hzl.is_finite], the finiteness test of an
    evaluation point (section 4.2: a non-finite value or derivative). *)
Definition is_finite (v : ValueAndGradient) : Tensor bool :=
  tf_is_finite (val_f v) &&& tf_is_finite (val_df v).

(** Modelled from the spec: [hzl.val_where], the elementwise masked select
    on evaluation points (sections 1 and 5): [tval] where [c] holds and
    [fval] elsewhere, field by field. *)
Definition val_where (c : Tensor bool) (tval fval : ValueAndGradient)
  : ValueAndGradient :=
  mkVal (tf_where c (val_x tval) (val_x fval))
        (tf_where c (val_f tval) (val_f fval))
        (tf_where c (val_df tval) (val_df fval)).

(** ** Oracle calls and loops *)

(** One call of the oracle: the tensor of steps it was called with. *)
Definition Call : Type := Tensor float.

(** A value together with the oracle calls made to compute it. *)
Definition Traced (A : Type) : Type := (A * list Call)%type.

(** A traced computation that may run out of fuel. *)
Definition M (A : Type) : Type := option (Traced A).

Definition ret {A : Type} (a : A) : M A := Some (a, []).

Definition bind {A B : Type} (m : M A) (k : A -> M B) : M B :=
  match m with
  | None => None
  | Some (a, t1) =>
      match k a with
      | None => None
      | Some (b, t2) => Some (b, t1 ++ t2)
      end
  end.

Definition lift {A : Type} (w : Traced A) : M A := Some w.

Notation "x <- c1 ;; c2" := (bind c1 (fun x => c2))
  (at level 61, c1 at next level, right associativity).
Notation "' pat <- c1 ;; c2" := (bind c1 (fun x => match x with pat => c2 end))
  (at level 61, pat pattern, c1 at next level, right associativity).

(** [tf.while_loop(cond, body, loop_vars)] with a bound on the trips. *)
Fixpoint while_loop {S : Type} (fuel : nat) (cond : S -> bool)
  (body : S -> M S) (s : S) : M S :=
  if cond s then
    match fuel with
    | O => None
    | Datatypes.S k => s' <- body s ;; while_loop k cond body s'
    end
  else ret s.

(** The trace of a finished computation. *)
Definition trace_of {A : Type} (m : M A) : list Call :=
  match m with
  | Some (_, t) => t
  | None => []
  end.

(** ** The line search *)

Section LineSearch.

(** The working dtype and the batch size. *)
Variables prec emax : Z.
Variable n : nat.

(** The type of the evaluation oracle. *)
Definition Oracle : Type := Tensor float -> ValueAndGradient.

(** The primitives of [hager_zhang_lib] ([hzl.bracket], [hzl.secant2] and
    [hzl.update]) are outside this module: they are parameters, called with
    the arguments the source passes, and return their result record and
    the oracle calls they made. *)
Variable bracket :
  Oracle -> HagerZhangLineSearchResult -> Tensor float -> Z -> float ->
  Traced BracketResult.
Variable secant2 :
  Oracle -> ValueAndGradient -> HagerZhangLineSearchResult -> Tensor float ->
  float -> float -> Traced Secant2Result.
Variable update :
  Oracle -> ValueAndGradient -> ValueAndGradient -> ValueAndGradient ->
  Tensor float -> Tensor bool -> Traced UpdateResult.

Variable value_and_gradients_function : Oracle.

(** A call of [value_and_gradients_function], recorded in the trace. *)
Definition call_oracle (c : Tensor float) : M ValueAndGradient :=
  Some (value_and_gradients_function c, [c]).

(** *** [_prepare_args] *)

Definition _prepare_args
  (initial_step_size : option (Tensor float))
  (val_initial val_0 : option ValueAndGradient)
  (approximate_wolfe_threshold : float)
  : M (ValueAndGradient * ValueAndGradient * Tensor float * Z) :=
  let eval_count := 0 in
  '(val_initial, eval_count) <-
     match val_initial with
     | Some v => ret (v, eval_count)
     | None =>
         let initial_step_size :=
           match initial_step_size with
           | Some s => s
           | None => broadcast (fone prec emax)
           end in
         v <- call_oracle initial_step_size ;;
         ret (v, eval_count + 1)
     end ;;
  '(val_0, eval_count) <-
     match val_0 with
     | Some v => ret (v, eval_count)
     | None =>
         let x_0 : Tensor float := broadcast fzero in
         v <- call_oracle x_0 ;;
         ret (v, eval_count + 1)
     end ;;
  let f_lim :=
    tf_add prec emax (val_f val_0)
      (tf_mul prec emax (broadcast approximate_wolfe_threshold)
         (tf_abs (val_f val_0))) in
  ret (val_0, val_initial, f_lim, eval_count).

(** *** [_fix_step_size] *)

(** [iter_max = np.ceil(-np.log2(_machine_eps(val_c_input.x.dtype)))] *)
Definition iter_max : Z := ceil_neg_log2 (_machine_eps prec emax).

Definition FixState : Type := (Z * ValueAndGradient * Tensor bool)%type.
Definition fix_count (st : FixState) : Z := fst (fst st).
Definition fix_val (st : FixState) : ValueAndGradient := snd (fst st).
Definition fix_mask (st : FixState) : Tensor bool := snd st.

(** [_cond(i, val_c, to_fix)] *)
Definition fix_step_cond (st : FixState) : bool :=
  let '(i, _, to_fix) := st in
  (i <? iter_max) && reduce_any n to_fix.

(** [_body(i, val_c, to_fix)] *)
Definition fix_step_next_c (step_size_shrink_param : float)
  (val_c : ValueAndGradient) (to_fix : Tensor bool) : Tensor float :=
  tf_where to_fix
    (tf_mul prec emax (val_x val_c) (broadcast step_size_shrink_param))
    (val_x val_c).

Definition fix_step_body (step_size_shrink_param : float) (st : FixState)
  : M FixState :=
  let '(i, val_c, to_fix) := st in
  let next_c := fix_step_next_c step_size_shrink_param val_c to_fix in
  next_val_c <- call_oracle next_c ;;
  let still_to_fix := to_fix &&& ~~ is_finite next_val_c in
  ret (i + 1, next_val_c, still_to_fix).

Definition _fix_step_size (fuel : nat) (val_c_input : ValueAndGradient)
  (active : Tensor bool) (step_size_shrink_param : float) : M FixState :=
  let to_fix := active &&& ~~ is_finite val_c_input in
  while_loop fuel fix_step_cond (fix_step_body step_size_shrink_param)
    (0, val_c_input, to_fix).

(** *** [_line_search_inner_bisection] *)

Definition bisection_midpoint (search_interval : HagerZhangLineSearchResult)
  : Tensor float :=
  tf_div prec emax
    (tf_add prec emax (val_x (left search_interval))
       (val_x (right search_interval)))
    (broadcast (ftwo prec emax)).

Definition _line_search_inner_bisection
  (search_interval : HagerZhangLineSearchResult) (active : Tensor bool)
  (f_lim : Tensor float) : M HagerZhangLineSearchResult :=
  let midpoint := bisection_midpoint search_interval in
  val_mid <- call_oracle midpoint ;;
  let is_valid_mid := is_finite val_mid in
  let still_active := active &&& is_valid_mid in
  let new_failed := active &&& ~~ is_valid_mid in
  let next_inteval :=
    replace_failed_func_evals search_interval
      (failed search_interval ||| new_failed)
      (func_evals search_interval + 1) in
  if reduce_any n still_active then
    (* _apply_update *)
    update_result <-
      lift (update value_and_gradients_function (left next_inteval)
              (right next_inteval) val_mid f_lim still_active) ;;
    ret (mkResult
           (converged next_inteval)
           (failed next_inteval ||| up_failed update_result)
           (func_evals next_inteval + up_num_evals update_result)
           (iterations next_inteval + up_iteration update_result)
           (up_left update_result)
           (up_right update_result))
  else ret next_inteval.

(** *** [_line_search_after_bracketing] *)

(** The masks of [_do_check_shrinkage]. *)
Definition sufficient_shrinkage (shrinkage_param : float)
  (curr_interval secant2_result : HagerZhangLineSearchResult) : Tensor bool :=
  let old_width :=
    tf_sub prec emax (val_x (right curr_interval)) (val_x (left curr_interval)) in
  let new_width :=
    tf_sub prec emax (val_x (right secant2_result))
      (val_x (left secant2_result)) in
  tf_lt new_width (tf_mul prec emax old_width (broadcast shrinkage_param)).

Definition func_is_flat
  (curr_interval secant2_result : HagerZhangLineSearchResult) : Tensor bool :=
  _very_close prec emax (val_f (left curr_interval))
    (val_f (right curr_interval)) &&&
  _very_close prec emax (val_f (left secant2_result))
    (val_f (right secant2_result)).

Definition should_check_shrinkage
  (secant2_result : HagerZhangLineSearchResult) : Tensor bool :=
  ~~ (converged secant2_result ||| failed secant2_result).

Definition new_converged (shrinkage_param : float)
  (curr_interval secant2_result : HagerZhangLineSearchResult) : Tensor bool :=
  should_check_shrinkage secant2_result &&&
  sufficient_shrinkage shrinkage_param curr_interval secant2_result &&&
  func_is_flat curr_interval secant2_result.

Definition needs_inner_bisect (shrinkage_param : float)
  (curr_interval secant2_result : HagerZhangLineSearchResult) : Tensor bool :=
  should_check_shrinkage secant2_result &&&
  ~~ sufficient_shrinkage shrinkage_param curr_interval secant2_result.

Definition inner_bisect_args (shrinkage_param : float)
  (curr_interval secant2_result : HagerZhangLineSearchResult)
  : HagerZhangLineSearchResult :=
  replace_converged secant2_result
    (converged secant2_result |||
     new_converged shrinkage_param curr_interval secant2_result).

Definition _do_check_shrinkage (shrinkage_param : float)
  (f_lim : Tensor float)
  (curr_interval secant2_result : HagerZhangLineSearchResult)
  : M HagerZhangLineSearchResult :=
  if reduce_any n (needs_inner_bisect shrinkage_param curr_interval secant2_result)
  then
    (* _apply_inner_bisect *)
    _line_search_inner_bisection
      (inner_bisect_args shrinkage_param curr_interval secant2_result)
      (needs_inner_bisect shrinkage_param curr_interval secant2_result) f_lim
  else ret (inner_bisect_args shrinkage_param curr_interval secant2_result).

(** The record [secant2_result] that [_loop_body] builds from the raw result
    of [hzl.secant2]. *)
Definition secant2_result_of (curr_interval : HagerZhangLineSearchResult)
  (secant2_raw_result : Secant2Result) : HagerZhangLineSearchResult :=
  mkResult
    (s2_converged secant2_raw_result)
    (s2_failed secant2_raw_result)
    (s2_num_evals secant2_raw_result)
    (iterations curr_interval + 1)
    (s2_left secant2_raw_result)
    (s2_right secant2_raw_result).

(** The last two statements of [_loop_body]. *)
Definition interval_shrunk (next_args : HagerZhangLineSearchResult)
  : Tensor bool :=
  ~~ failed next_args &&&
  _very_close prec emax (val_x (left next_args)) (val_x (right next_args)).

Definition _loop_body (val_0 : ValueAndGradient) (f_lim : Tensor float)
  (sufficient_decrease_param curvature_param shrinkage_param : float)
  (curr_interval : HagerZhangLineSearchResult)
  : M HagerZhangLineSearchResult :=
  secant2_raw_result <-
    lift (secant2 value_and_gradients_function val_0 curr_interval f_lim
            sufficient_decrease_param curvature_param) ;;
  let secant2_result := secant2_result_of curr_interval secant2_raw_result in
  next_args <-
    (if reduce_any n (should_check_shrinkage secant2_result)
     then _do_check_shrinkage shrinkage_param f_lim curr_interval secant2_result
     else ret secant2_result) ;;
  ret (replace_converged next_args
         (converged next_args ||| interval_shrunk next_args)).

Definition _loop_cond (max_iterations : Z)
  (curr_interval : HagerZhangLineSearchResult) : bool :=
  let active := ~~ (converged curr_interval ||| failed curr_interval) in
  (iterations curr_interval <? max_iterations) && reduce_any n active.

Definition _line_search_after_bracketing (fuel : nat)
  (search_interval : HagerZhangLineSearchResult) (val_0 : ValueAndGradient)
  (f_lim : Tensor float) (max_iterations : Z)
  (sufficient_decrease_param curvature_param shrinkage_param : float)
  : M HagerZhangLineSearchResult :=
  while_loop fuel (_loop_cond max_iterations)
    (_loop_body val_0 f_lim sufficient_decrease_param curvature_param
       shrinkage_param)
    search_interval.

(** *** [_bracket_and_search] *)

Definition line_search_args (init_interval : HagerZhangLineSearchResult)
  (max_iterations : Z) (bracket_result : BracketResult)
  : HagerZhangLineSearchResult :=
  let converged_now :=
    converged init_interval |||
    _very_close prec emax (val_x (br_left bracket_result))
      (val_x (br_right bracket_result)) in
  (* We fail if we have not yet converged but already exhausted all
     iterations. *)
  let exhausted_iterations :=
    ~~ converged_now &&&
    broadcast (br_iteration bracket_result >=? max_iterations) in
  mkResult
    converged_now
    (br_failed bracket_result ||| exhausted_iterations)
    (br_num_evals bracket_result)
    (br_iteration bracket_result)
    (br_left bracket_result)
    (br_right bracket_result).

Definition _bracket_and_search (fuel : nat)
  (init_interval : HagerZhangLineSearchResult) (f_lim : Tensor float)
  (max_iterations : Z)
  (shrinkage_param expansion_param sufficient_decrease_param
   curvature_param : float)
  : M HagerZhangLineSearchResult :=
  bracket_result <-
    lift (bracket value_and_gradients_function init_interval f_lim
            max_iterations expansion_param) ;;
  _line_search_after_bracketing fuel
    (line_search_args init_interval max_iterations bracket_result)
    (left init_interval) f_lim max_iterations sufficient_decrease_param
    curvature_param shrinkage_param.

(** *** [hager_zhang] *)

Definition valid_inputs (val_0 val_initial : ValueAndGradient) : Tensor bool :=
  is_finite val_0 &&& tf_lt (val_df val_0) (broadcast fzero) &&&
  tf_is_finite (val_x val_initial) &&&
  tf_gt (val_x val_initial) (broadcast fzero).

Definition init_converged_of (converged_arg : option (Tensor bool))
  : Tensor bool :=
  match converged_arg with
  | None => broadcast false (* tf.zeros_like(valid_inputs) *)
  | Some c => c
  end.

Definition init_interval_of (val_0 val_c : ValueAndGradient)
  (init_converged failed_arg fix_failed : Tensor bool)
  (prepare_evals fix_step_evals : Z) : HagerZhangLineSearchResult :=
  mkResult
    init_converged
    (failed_arg ||| fix_failed)
    (prepare_evals + fix_step_evals)
    0
    val_0
    (val_where init_converged val_0 val_c).

Definition hager_zhang (fuel : nat)
  (initial_step_size : option (Tensor float))
  (value_at_initial_step value_at_zero : option ValueAndGradient)
  (converged_arg : option (Tensor bool))
  (threshold_use_approximate_wolfe_condition shrinkage_param expansion_param
   sufficient_decrease_param curvature_param step_size_shrink_param : float)
  (max_iterations : Z) : M HagerZhangLineSearchResult :=
  '(val_0, val_initial, f_lim, prepare_evals) <-
    _prepare_args initial_step_size value_at_initial_step value_at_zero
      threshold_use_approximate_wolfe_condition ;;
  let valid_inputs := valid_inputs val_0 val_initial in
  let init_converged := init_converged_of converged_arg in
  let failed_init := ~~ init_converged &&& ~~ valid_inputs in
  let active := ~~ init_converged &&& valid_inputs in
  '(fix_step_evals, val_c, fix_failed) <-
    _fix_step_size fuel val_initial active step_size_shrink_param ;;
  let init_interval :=
    init_interval_of val_0 val_c init_converged failed_init fix_failed
      prepare_evals fix_step_evals in
  let init_active := ~~ failed init_interval &&& ~~ converged init_interval in
  if reduce_any n init_active
  then
    (* _apply_bracket_and_search *)
    _bracket_and_search fuel init_interval f_lim max_iterations
      shrinkage_param expansion_param sufficient_decrease_param
      curvature_param
  else ret init_interval.

End LineSearch.


(** ** Concrete values of the float32 dtype *)

Module F32.

Definition prec : Z := 24.
Definition emax : Z := 128.

(** The float32 nearest to an integer, and to a ratio of two integers. *)
Definition of_Z (z : Z) : float := binary_normalize prec emax z 0 false.
Definition ratio (p q : Z) : float := SFdiv prec emax (of_Z p) (of_Z q).

Definition pinf : float := S754_infinity false.

(** The objective of the module's docstring: [f(x) = (x - 1.3)^2] and
    [df(x) = 2 (x - 1.3)], computed in float32 on every element. *)
Definition parabola : Oracle :=
  fun c =>
    let d : Tensor float := tf_sub prec emax c (broadcast (ratio 13 10)) in
    mkVal c (tf_mul prec emax d d) (tf_mul prec emax (broadcast (of_Z 2)) d).

Definition one_t : Tensor float := broadcast (of_Z 1).

End F32.

(** ** The comparator [_very_close] as the specification words it *)

Section VeryCloseStated.

Variables prec emax : Z.

(** The smaller and the larger of two values, and the test the
    specification describes: one step from the smaller towards the larger
    reaches or exceeds the larger. *)
Definition smaller (a b : float) : float := if flt b a then b else a.
Definition larger (a b : float) : float := if flt b a then a else b.
Definition one_step_reaches (a b : float) : bool :=
  fge (nextafter prec emax (smaller a b) (larger a b)) (larger a b).

(** For all inputs the comparator is that test, whichever argument is the
    smaller one. *)
Definition very_close_as_stated : Prop :=
  forall (x y : Tensor float) (i : nat),
    _very_close prec emax x y i = one_step_reaches (x i) (y i) /\
    _very_close prec emax x y i = _very_close prec emax y x i.

End VeryCloseStated.

(** ** The trips of the repair loop, one by one *)

(** [k] is [ceil(-log2 v)] for the positive value [v = m * 2^e], that is
    [2^(-k) <= m * 2^e < 2^(1-k)]; both sides are scaled by [2^(-e)] to stay
    in the integers. *)
Definition ceiling_of (m : positive) (e k : Z) : Prop :=
  0 <= - k - e /\ 2 ^ (- k - e) <= Zpos m < 2 ^ (1 - k - e).

Section RepairTrips.

Variables prec emax : Z.
Variable value_and_gradients_function : Oracle.
Variable step_size_shrink_param : float.

(** The state after one trip of the loop of [_fix_step_size]. *)
Definition fix_step_trip (st : FixState) : FixState :=
  let '(i, val_c, to_fix) := st in
  let next_val_c :=
    value_and_gradients_function
      (fix_step_next_c prec emax step_size_shrink_param val_c to_fix) in
  (i + 1, next_val_c, to_fix &&& ~~ is_finite next_val_c).

(** The argument of the oracle call of one trip. *)
Definition fix_step_call (st : FixState) : Call :=
  let '(_, val_c, to_fix) := st in
  fix_step_next_c prec emax step_size_shrink_param val_c to_fix.

(** The state after [k] trips and the oracle calls of these trips. *)
Fixpoint fix_step_trips (k : nat) (st : FixState) : FixState :=
  match k with
  | O => st
  | S k' => fix_step_trips k' (fix_step_trip st)
  end.

Fixpoint fix_step_calls (k : nat) (st : FixState) : list Call :=
  match k with
  | O => []
  | S k' => fix_step_call st :: fix_step_calls k' (fix_step_trip st)
  end.

(** The loop variables with which [_fix_step_size] enters its loop. *)
Definition fix_step_start (val_c_input : ValueAndGradient)
  (active : Tensor bool) : FixState :=
  (0, val_c_input, active &&& ~~ is_finite val_c_input).

End RepairTrips.

(** ** What the repair loop does, as a statement *)

Section RepairOutcome.

Variables prec emax : Z.
Variable n : nat.
Variable value_and_gradients_function : Oracle.
Variable step_size_shrink_param : float.

(** [_fix_step_size], run on [val_c_input] and [active], stops after [k]
    trips with [k] oracle calls, [k] at most the ceiling [iter_max]:
    - no trip is made when no active element is non-finite;
    - in trip [j] the oracle is called with the step of every element still
      under repair multiplied by the shrink factor, the other steps as they
      are;
    - an active element that was non-finite at the initial evaluation and at
      each of the [k] re-evaluations is left in the mask that [hager_zhang]
      or-s into [failed], and the ceiling was reached. *)
Definition repair_outcome (fuel : nat) (val_c_input : ValueAndGradient)
  (active : Tensor bool) : Prop :=
  let st0 := fix_step_start val_c_input active in
  let trips :=
    fix_step_trips prec emax value_and_gradients_function
      step_size_shrink_param in
  let calls :=
    fix_step_calls prec emax value_and_gradients_function
      step_size_shrink_param in
  exists k : nat,
    _fix_step_size prec emax n value_and_gradients_function fuel val_c_input
      active step_size_shrink_param = Some (trips k st0, calls k st0) /\
    Z.of_nat k <= Z.max 0 (iter_max prec emax) /\
    fix_count (trips k st0) = Z.of_nat k /\
    length (calls k st0) = k /\
    (reduce_any n (active &&& ~~ is_finite val_c_input) = false -> k = 0%nat) /\
    (forall j e, (j < k)%nat ->
       nth j (calls k st0) (broadcast fzero) e =
       if fix_mask (trips j st0) e
       then SFmul prec emax (val_x (fix_val (trips j st0)) e)
              step_size_shrink_param
       else val_x (fix_val (trips j st0)) e) /\
    (forall e, (e < n)%nat ->
       active e = true ->
       is_finite val_c_input e = false ->
       (forall j, (1 <= j <= k)%nat ->
          is_finite (fix_val (trips j st0)) e = false) ->
       iter_max prec emax <= Z.of_nat k /\
       fix_mask (trips k st0) e = true /\
       forall val_0 init_converged failed_init prepare_evals,
         failed
           (init_interval_of val_0 (fix_val (trips k st0)) init_converged
              failed_init (fix_mask (trips k st0)) prepare_evals
              (fix_count (trips k st0))) e = true).

End RepairOutcome.

(** A float32 batch of two steps, [10^20] and [1]: the parabola overflows
    at the first. *)
Module RepairScenario.

Definition steps : Tensor float :=
  fun i => match i with O => F32.of_Z (10 ^ 20) | _ => F32.of_Z 1 end.
Definition val_c_input : ValueAndGradient := F32.parabola steps.
Definition active : Tensor bool := broadcast true.
Definition shrink : float := F32.ratio 1 10.

End RepairScenario.

(** ** The contracts of the primitives

    [hzl.bracket], [hzl.secant2] and [hzl.update] are consumed as black
    boxes.  What the controller relies on is that they act under a mask: an
    element that is not active is left as it is. *)

Section Contracts.

Variable n : nat.
Variable value_and_gradients_function : Oracle.

(** Element [e] of a search state is frozen: converged or failed. *)
Definition frozen (r : HagerZhangLineSearchResult) (e : nat) : bool :=
  converged r e || failed r e.

(** Modelled from the spec: [hzl.bracket] (section 4.3 with the freezing
    rule of section 3) leaves the failure flag and both end points of a
    frozen element as they are. *)
Definition bracket_respects_mask
  (bracket :
     Oracle -> HagerZhangLineSearchResult -> Tensor float -> Z -> float ->
     Traced BracketResult) : Prop :=
  forall init_interval f_lim max_iterations expansion_param e,
    (e < n)%nat ->
    frozen init_interval e = true ->
    let r :=
      fst (bracket value_and_gradients_function init_interval f_lim
             max_iterations expansion_param) in
    br_failed r e = failed init_interval e /\
    val_eq_at e (br_left r) (left init_interval) /\
    val_eq_at e (br_right r) (right init_interval).

(** Modelled from the spec: [hzl.secant2] (section 4.4 with the freezing rule
    of section 3) leaves both flags and both end points of a frozen element
    as they are. *)
Definition secant2_respects_mask
  (secant2 :
     Oracle -> ValueAndGradient -> HagerZhangLineSearchResult ->
     Tensor float -> float -> float -> Traced Secant2Result) : Prop :=
  forall val_0 curr_interval f_lim sufficient_decrease_param curvature_param e,
    (e < n)%nat ->
    frozen curr_interval e = true ->
    let r :=
      fst (secant2 value_and_gradients_function val_0 curr_interval f_lim
             sufficient_decrease_param curvature_param) in
    s2_converged r e = converged curr_interval e /\
    s2_failed r e = failed curr_interval e /\
    val_eq_at e (s2_left r) (left curr_interval) /\
    val_eq_at e (s2_right r) (right curr_interval).

(** Modelled from the spec: [hzl.update] (section 4.4) is restricted to the
    [active] mask: outside it no element fails and no end point moves. *)
Definition update_respects_mask
  (update :
     Oracle -> ValueAndGradient -> ValueAndGradient -> ValueAndGradient ->
     Tensor float -> Tensor bool -> Traced UpdateResult) : Prop :=
  forall val_left val_right val_trial f_lim active e,
    (e < n)%nat ->
    active e = false ->
    let r :=
      fst (update value_and_gradients_function val_left val_right val_trial
             f_lim active) in
    up_failed r e = false /\
    val_eq_at e (up_left r) val_left /\
    val_eq_at e (up_right r) val_right.

(** Modelled from the spec: the eval counts the primitives report are the
    oracle calls they made (section 4.4): [hzl.secant2] reports the
    running total, [hzl.update] the calls of its own. *)
Definition secant2_counts_calls
  (secant2 :
     Oracle -> ValueAndGradient -> HagerZhangLineSearchResult ->
     Tensor float -> float -> float -> Traced Secant2Result) : Prop :=
  forall val_0 curr_interval f_lim sufficient_decrease_param curvature_param,
    let r :=
      secant2 value_and_gradients_function val_0 curr_interval f_lim
        sufficient_decrease_param curvature_param in
    s2_num_evals (fst r) =
    func_evals curr_interval + Z.of_nat (length (snd r)).

Definition update_counts_calls
  (update :
     Oracle -> ValueAndGradient -> ValueAndGradient -> ValueAndGradient ->
     Tensor float -> Tensor bool -> Traced UpdateResult) : Prop :=
  forall val_left val_right val_trial f_lim active,
    let r :=
      update value_and_gradients_function val_left val_right val_trial
        f_lim active in
    up_num_evals (fst r) = Z.of_nat (length (snd r)).

(** Modelled from the spec: the trip count that [hzl.update] reports
    (section 4.4) is a count: it is not negative. *)
Definition update_trips_nonnegative
  (update :
     Oracle -> ValueAndGradient -> ValueAndGradient -> ValueAndGradient ->
     Tensor float -> Tensor bool -> Traced UpdateResult) : Prop :=
  forall val_left val_right val_trial f_lim active,
    0 <= up_iteration
           (fst (update value_and_gradients_function val_left val_right
                   val_trial f_lim active)).

(** Modelled from the spec: once an element is converged or failed,
    [hzl.secant2] keeps each flag that is set and both end points
    (sections 3 and 4.6: the states are absorbing and a frozen bracket stops
    changing); it may still set the other flag. *)
Definition secant2_keeps_frozen
  (secant2 :
     Oracle -> ValueAndGradient -> HagerZhangLineSearchResult ->
     Tensor float -> float -> float -> Traced Secant2Result) : Prop :=
  forall val_0 curr_interval f_lim sufficient_decrease_param curvature_param e,
    (e < n)%nat ->
    frozen curr_interval e = true ->
    let r :=
      fst (secant2 value_and_gradients_function val_0 curr_interval f_lim
             sufficient_decrease_param curvature_param) in
    (converged curr_interval e = true -> s2_converged r e = true) /\
    (failed curr_interval e = true -> s2_failed r e = true) /\
    val_eq_at e (s2_left r) (left curr_interval) /\
    val_eq_at e (s2_right r) (right curr_interval).

(** Modelled from the spec: [hzl.update] (section 4.4) moves no end point
    outside the [active] mask. *)
Definition update_keeps_masked
  (update :
     Oracle -> ValueAndGradient -> ValueAndGradient -> ValueAndGradient ->
     Tensor float -> Tensor bool -> Traced UpdateResult) : Prop :=
  forall val_left val_right val_trial f_lim active e,
    (e < n)%nat ->
    active e = false ->
    let r :=
      fst (update value_and_gradients_function val_left val_right val_trial
             f_lim active) in
    val_eq_at e (up_left r) val_left /\
    val_eq_at e (up_right r) val_right.

(** Modelled from the spec: the trips of the search loop are counted by the
    loop alone, one per trip (section 4.6): the trip count that
    [hzl.update] reports for its single-point update is 0. *)
Definition update_reports_no_trip
  (update :
     Oracle -> ValueAndGradient -> ValueAndGradient -> ValueAndGradient ->
     Tensor float -> Tensor bool -> Traced UpdateResult) : Prop :=
  forall val_left val_right val_trial f_lim active,
    up_iteration
      (fst (update value_and_gradients_function val_left val_right val_trial
              f_lim active)) = 0.

End Contracts.

(** ** Masked steps

    Simple steps that leave every frozen element exactly as it is, to show
    that the masking contracts above can be met: the bracket is the initial
    interval, the step and the update evaluate the oracle at a midpoint.
    They are not the steps of [hager_zhang_lib]. *)

Module Demo.

Section Primitives.

Variables prec emax : Z.

Definition midpoint_of (a b : ValueAndGradient) : Tensor float :=
  tf_div prec emax (tf_add prec emax (val_x a) (val_x b))
    (broadcast (ftwo prec emax)).

(** The initial interval is returned as the bracket, with no trip. *)
Definition bracket (vgf : Oracle) (init_interval : HagerZhangLineSearchResult)
  (f_lim : Tensor float) (max_iterations : Z) (expansion_param : float)
  : Traced BracketResult :=
  (mkBracketResult (iterations init_interval) (failed init_interval)
     (func_evals init_interval) (left init_interval) (right init_interval),
   []).

(** One evaluation at the midpoint of every active element: the point
    replaces the left end when the slope is negative there, the right end
    otherwise; a non-finite evaluation fails the element. *)
Definition secant2 (vgf : Oracle) (val_0 : ValueAndGradient)
  (curr_interval : HagerZhangLineSearchResult) (f_lim : Tensor float)
  (sufficient_decrease_param curvature_param : float)
  : Traced Secant2Result :=
  let active := ~~ (converged curr_interval ||| failed curr_interval) in
  let c := midpoint_of (left curr_interval) (right curr_interval) in
  let val_c := vgf c in
  let ok := active &&& is_finite val_c in
  let downhill := tf_lt (val_df val_c) (broadcast fzero) in
  (mkSecant2Result
     (converged curr_interval)
     (failed curr_interval ||| (active &&& ~~ is_finite val_c))
     (func_evals curr_interval + 1)
     (val_where (ok &&& downhill) val_c (left curr_interval))
     (val_where (ok &&& ~~ downhill) val_c (right curr_interval)),
   [c]).

(** One evaluation between the left end and the trial point: the point
    evaluated there becomes the right end of every active element.  No trip
    is counted. *)
Definition update (vgf : Oracle) (val_left val_right val_trial : ValueAndGradient)
  (f_lim : Tensor float) (active : Tensor bool) : Traced UpdateResult :=
  let c := midpoint_of val_left val_trial in
  let val_c := vgf c in
  (mkUpdateResult 0 (active &&& ~~ is_finite val_c) 1 val_left
     (val_where (active &&& is_finite val_c) val_c val_right),
   [c]).

End Primitives.

(** An objective whose values cannot be told apart in float32: [f(x) = 1]
    on every element, with the slope of the parabola. *)
Definition plateau : Oracle :=
  fun c =>
    mkVal c (broadcast (F32.of_Z 1)) (val_df (F32.parabola c)).

(** The evaluation points of the parabola and of the plateau at a step
    given as a ratio of two integers. *)
Definition parabola_at (p q : Z) : ValueAndGradient :=
  F32.parabola (broadcast (F32.ratio p q)).
Definition plateau_at (p q : Z) : ValueAndGradient :=
  plateau (broadcast (F32.ratio p q)).

(** A search state with no flag set, on the interval between two points. *)
Definition fresh_interval (l r : ValueAndGradient)
  : HagerZhangLineSearchResult :=
  mkResult (broadcast false) (broadcast false) 0 0 l r.

End Demo.

(** ** The parts of one trip, by name *)

Section TripParts.

Variables prec emax : Z.
Variable n : nat.
Variable secant2 :
  Oracle -> ValueAndGradient -> HagerZhangLineSearchResult -> Tensor float ->
  float -> float -> Traced Secant2Result.
Variable update :
  Oracle -> ValueAndGradient -> ValueAndGradient -> ValueAndGradient ->
  Tensor float -> Tensor bool -> Traced UpdateResult.
Variable value_and_gradients_function : Oracle.

(** The locals [val_mid], [still_active] and [new_failed] of
    [_line_search_inner_bisection], and its call of [hzl.update]. *)
Definition bisection_val_mid (search_interval : HagerZhangLineSearchResult)
  : ValueAndGradient :=
  value_and_gradients_function (bisection_midpoint prec emax search_interval).

Definition bisection_still_active
  (search_interval : HagerZhangLineSearchResult) (active : Tensor bool)
  : Tensor bool :=
  active &&& is_finite (bisection_val_mid search_interval).

Definition bisection_new_failed
  (search_interval : HagerZhangLineSearchResult) (active : Tensor bool)
  : Tensor bool :=
  active &&& ~~ is_finite (bisection_val_mid search_interval).

Definition bisection_update (search_interval : HagerZhangLineSearchResult)
  (active : Tensor bool) (f_lim : Tensor float) : Traced UpdateResult :=
  update value_and_gradients_function (left search_interval)
    (right search_interval) (bisection_val_mid search_interval) f_lim
    (bisection_still_active search_interval active).

(** The call of [hzl.secant2] of [_loop_body] and the record built from it. *)
Definition trip_secant2 (val_0 : ValueAndGradient) (f_lim : Tensor float)
  (sufficient_decrease_param curvature_param : float)
  (curr_interval : HagerZhangLineSearchResult) : Traced Secant2Result :=
  secant2 value_and_gradients_function val_0 curr_interval f_lim
    sufficient_decrease_param curvature_param.

Definition trip_secant2_result (val_0 : ValueAndGradient)
  (f_lim : Tensor float) (sufficient_decrease_param curvature_param : float)
  (curr_interval : HagerZhangLineSearchResult) : HagerZhangLineSearchResult :=
  secant2_result_of curr_interval
    (fst (trip_secant2 val_0 f_lim sufficient_decrease_param curvature_param
            curr_interval)).

(** [k] trips of [_loop_body] in a row, whatever [_loop_cond] says. *)
Fixpoint loop_trips (k : nat) (val_0 : ValueAndGradient)
  (f_lim : Tensor float)
  (sufficient_decrease_param curvature_param shrinkage_param : float)
  (s : HagerZhangLineSearchResult) : M HagerZhangLineSearchResult :=
  match k with
  | O => ret s
  | S k' =>
      s' <- _loop_body prec emax n secant2 update value_and_gradients_function
              val_0 f_lim sufficient_decrease_param curvature_param
              shrinkage_param s ;;
      loop_trips k' val_0 f_lim sufficient_decrease_param curvature_param
        shrinkage_param s'
  end.

End TripParts.

(** A frozen element keeps its flags from [s] to [s']: a flag that is set
    stays set, and both end points are the same. *)
Definition latched (e : nat) (s s' : HagerZhangLineSearchResult) : Prop :=
  (converged s e = true -> converged s' e = true) /\
  (failed s e = true -> failed s' e = true) /\
  (frozen s e = true ->
   val_eq_at e (left s') (left s) /\ val_eq_at e (right s') (right s)).

(** A frozen element is exactly as it was: both flags and both end points. *)
Definition untouched (e : nat) (s s' : HagerZhangLineSearchResult) : Prop :=
  converged s' e = converged s e /\ failed s' e = failed s e /\
  val_eq_at e (left s') (left s) /\ val_eq_at e (right s') (right s).

(** ** What the shrinkage check does for one element, as a statement *)

Section ShrinkageOutcome.

Variables prec emax : Z.
Variable n : nat.
Variable update :
  Oracle -> ValueAndGradient -> ValueAndGradient -> ValueAndGradient ->
  Tensor float -> Tensor bool -> Traced UpdateResult.
Variable value_and_gradients_function : Oracle.

(** [_do_check_shrinkage] returns [next] with the oracle calls [tr], and for
    element [e]:
    - shrunk enough and flat: [e] is converged in [next] and outside the
      bisection mask;
    - no element in the bisection mask: no call and the same [func_evals];
    - under-shrunk: [tr] starts with the one call at the midpoint, followed
      by the calls of [hzl.update] when it runs; [e] is not converged in
      [next]; it is failed when the midpoint evaluation is not finite for
      it, and otherwise it is in the mask given to [hzl.update], whose end
      points are those of [next]. *)
Definition shrinkage_check_outcome (shrinkage_param : float)
  (f_lim : Tensor float)
  (curr_interval secant2_result : HagerZhangLineSearchResult) (e : nat)
  : Prop :=
  let args :=
    inner_bisect_args prec emax shrinkage_param curr_interval secant2_result in
  let act :=
    needs_inner_bisect prec emax shrinkage_param curr_interval secant2_result in
  let val_mid := bisection_val_mid prec emax value_and_gradients_function args in
  let still :=
    bisection_still_active prec emax value_and_gradients_function args act in
  let upd :=
    bisection_update prec emax update value_and_gradients_function args act
      f_lim in
  exists next tr,
    _do_check_shrinkage prec emax n update value_and_gradients_function
      shrinkage_param f_lim curr_interval secant2_result = Some (next, tr) /\
    (sufficient_shrinkage prec emax shrinkage_param curr_interval
       secant2_result e = true ->
     func_is_flat prec emax curr_interval secant2_result e = true ->
     converged next e = true /\ act e = false) /\
    (reduce_any n act = false ->
     tr = [] /\ func_evals next = func_evals secant2_result) /\
    (sufficient_shrinkage prec emax shrinkage_param curr_interval
       secant2_result e = false ->
     tr = bisection_midpoint prec emax secant2_result ::
          (if reduce_any n still then snd upd else []) /\
     converged next e = false /\
     (is_finite val_mid e = false -> failed next e = true) /\
     (is_finite val_mid e = true ->
      still e = true /\
      left next = up_left (fst upd) /\ right next = up_right (fst upd))).

End ShrinkageOutcome.

(** ** The shrinkage-or-flatness law as the specification words it *)

Section ShrinkageLawStated.

Variables prec emax : Z.
Variable n : nat.
Variable update :
  Oracle -> ValueAndGradient -> ValueAndGradient -> ValueAndGradient ->
  Tensor float -> Tensor bool -> Traced UpdateResult.
Variable value_and_gradients_function : Oracle.

(** For an element that the secant2 step left active: under-shrunk and flat,
    it is marked converged and the check evaluates nothing; under-shrunk and
    not flat, the check starts with the evaluation at the midpoint. *)
Definition shrinkage_law_as_stated : Prop :=
  forall shrinkage_param f_lim curr_interval secant2_result e next tr,
    (e < n)%nat ->
    should_check_shrinkage secant2_result e = true ->
    sufficient_shrinkage prec emax shrinkage_param curr_interval
      secant2_result e = false ->
    _do_check_shrinkage prec emax n update value_and_gradients_function
      shrinkage_param f_lim curr_interval secant2_result = Some (next, tr) ->
    (func_is_flat prec emax curr_interval secant2_result e = true ->
     converged next e = true /\ tr = []) /\
    (func_is_flat prec emax curr_interval secant2_result e = false ->
     exists rest, tr = bisection_midpoint prec emax secant2_result :: rest).

End ShrinkageLawStated.

(** One float32 element on the plateau, between 0 and 2.5, and the interval
    that the stand-in secant2 step makes of it: the right half. *)
Module PlateauScenario.

Definition curr_interval : HagerZhangLineSearchResult :=
  Demo.fresh_interval (Demo.plateau_at 0 1) (Demo.plateau_at 5 2).

Definition val_0 : ValueAndGradient := left curr_interval.
Definition f_lim : Tensor float := val_f val_0.
Definition sufficient_decrease_param : float := F32.ratio 1 10.
Definition curvature_param : float := F32.ratio 9 10.

Definition secant2_result : HagerZhangLineSearchResult :=
  trip_secant2_result (Demo.secant2 F32.prec F32.emax) Demo.plateau val_0
    f_lim sufficient_decrease_param curvature_param curr_interval.

(** The default shrinkage parameter, and one that a halved interval misses. *)
Definition gamma_default : float := F32.ratio 66 100.
Definition gamma_tight : float := F32.ratio 4 10.

End PlateauScenario.

(** ** The counters of one trip *)

Section TripCounters.

Variables prec emax : Z.
Variable n : nat.
Variable secant2 :
  Oracle -> ValueAndGradient -> HagerZhangLineSearchResult -> Tensor float ->
  float -> float -> Traced Secant2Result.
Variable update :
  Oracle -> ValueAndGradient -> ValueAndGradient -> ValueAndGradient ->
  Tensor float -> Tensor bool -> Traced UpdateResult.
Variable value_and_gradients_function : Oracle.

(** One trip returns [next] with the oracle calls [tr]:
    - with an element in the bisection mask and one still active after the
      midpoint evaluation, [iterations] grows by 1 plus the trips reported by
      [hzl.update], [func_evals] is the count reported by [hzl.secant2] plus
      1 plus the count reported by [hzl.update], and [tr] is the calls of
      [hzl.secant2], the midpoint, and the calls of [hzl.update];
    - with an element in the bisection mask and none still active,
      [iterations] grows by 1, [func_evals] is the count of [hzl.secant2]
      plus 1, and [tr] is the calls of [hzl.secant2] and the midpoint;
    - otherwise [iterations] grows by 1, [func_evals] is the count of
      [hzl.secant2] and [tr] is its calls. *)
Definition trip_counters_outcome (val_0 : ValueAndGradient)
  (f_lim : Tensor float)
  (sufficient_decrease_param curvature_param shrinkage_param : float)
  (curr_interval : HagerZhangLineSearchResult) : Prop :=
  let raw :=
    trip_secant2 secant2 value_and_gradients_function val_0 f_lim
      sufficient_decrease_param curvature_param curr_interval in
  let sec := secant2_result_of curr_interval (fst raw) in
  let args := inner_bisect_args prec emax shrinkage_param curr_interval sec in
  let act := needs_inner_bisect prec emax shrinkage_param curr_interval sec in
  let still :=
    bisection_still_active prec emax value_and_gradients_function args act in
  let upd :=
    bisection_update prec emax update value_and_gradients_function args act
      f_lim in
  exists next tr,
    _loop_body prec emax n secant2 update value_and_gradients_function val_0
      f_lim sufficient_decrease_param curvature_param shrinkage_param
      curr_interval = Some (next, tr) /\
    if reduce_any n (should_check_shrinkage sec) && reduce_any n act
    then
      if reduce_any n still
      then
        iterations next =
        iterations curr_interval + 1 + up_iteration (fst upd) /\
        func_evals next =
        s2_num_evals (fst raw) + 1 + up_num_evals (fst upd) /\
        tr = snd raw ++ bisection_midpoint prec emax sec :: snd upd
      else
        iterations next = iterations curr_interval + 1 /\
        func_evals next = s2_num_evals (fst raw) + 1 /\
        tr = snd raw ++ [bisection_midpoint prec emax sec]
    else
      iterations next = iterations curr_interval + 1 /\
      func_evals next = s2_num_evals (fst raw) /\
      tr = snd raw.

(** One trip returns [next] with the oracle calls [tr]: [iterations] has
    grown by 1, [func_evals] by the number of oracle calls of the trip, and
    a trip in which no element is in the bisection mask issues the calls of
    [hzl.secant2] only. *)
Definition trip_counts_outcome (val_0 : ValueAndGradient)
  (f_lim : Tensor float)
  (sufficient_decrease_param curvature_param shrinkage_param : float)
  (curr_interval : HagerZhangLineSearchResult) : Prop :=
  let raw :=
    trip_secant2 secant2 value_and_gradients_function val_0 f_lim
      sufficient_decrease_param curvature_param curr_interval in
  let sec := secant2_result_of curr_interval (fst raw) in
  let act := needs_inner_bisect prec emax shrinkage_param curr_interval sec in
  exists next tr,
    _loop_body prec emax n secant2 update value_and_gradients_function val_0
      f_lim sufficient_decrease_param curvature_param shrinkage_param
      curr_interval = Some (next, tr) /\
    iterations next = iterations curr_interval + 1 /\
    func_evals next = func_evals curr_interval + Z.of_nat (length tr) /\
    (reduce_any n (should_check_shrinkage sec) && reduce_any n act = false ->
     tr = snd raw).

End TripCounters.

(** One float32 element on the parabola of the docstring, between 0 and
    2.5. *)
Module ParabolaScenario.

Definition curr_interval : HagerZhangLineSearchResult :=
  Demo.fresh_interval (Demo.parabola_at 0 1) (Demo.parabola_at 5 2).

Definition val_0 : ValueAndGradient := left curr_interval.
Definition f_lim : Tensor float := val_f val_0.
Definition sufficient_decrease_param : float := F32.ratio 1 10.
Definition curvature_param : float := F32.ratio 9 10.
Definition gamma_default : float := F32.ratio 66 100.
Definition gamma_tight : float := F32.ratio 4 10.

End ParabolaScenario.

(** ** The latch, as a statement *)

Section LatchLaw.

Variables prec emax : Z.
Variable n : nat.
Variable secant2 :
  Oracle -> ValueAndGradient -> HagerZhangLineSearchResult -> Tensor float ->
  float -> float -> Traced Secant2Result.
Variable update :
  Oracle -> ValueAndGradient -> ValueAndGradient -> ValueAndGradient ->
  Tensor float -> Tensor bool -> Traced UpdateResult.
Variable value_and_gradients_function : Oracle.
Variable val_0 : ValueAndGradient.
Variable f_lim : Tensor float.
Variables sufficient_decrease_param curvature_param shrinkage_param : float.

(** The state [s'] is reached from [s] by some number of trips. *)
Definition trip_reaches (s s' : HagerZhangLineSearchResult) : Prop :=
  exists k tr,
    loop_trips prec emax n secant2 update value_and_gradients_function k
      val_0 f_lim sufficient_decrease_param curvature_param shrinkage_param s
    = Some (s', tr).

(** Element [e] is latched between any state and every state reached from
    it by more trips, and between the state the loop is entered with and
    the result of the loop. *)
Definition latch_law (e : nat) : Prop :=
  (forall s s', trip_reaches s s' -> latched e s s') /\
  (forall fuel max_iterations s res tr,
     _line_search_after_bracketing prec emax n secant2 update
       value_and_gradients_function fuel s val_0 f_lim max_iterations
       sufficient_decrease_param curvature_param shrinkage_param
     = Some (res, tr) ->
     latched e s res).

End LatchLaw.

(** ** The parts of [hager_zhang], by name *)

Section EntryParts.

Variables prec emax : Z.
Variable n : nat.
Variable bracket :
  Oracle -> HagerZhangLineSearchResult -> Tensor float -> Z -> float ->
  Traced BracketResult.
Variable secant2 :
  Oracle -> ValueAndGradient -> HagerZhangLineSearchResult -> Tensor float ->
  float -> float -> Traced Secant2Result.
Variable update :
  Oracle -> ValueAndGradient -> ValueAndGradient -> ValueAndGradient ->
  Tensor float -> Tensor bool -> Traced UpdateResult.
Variable value_and_gradients_function : Oracle.

(** What [_prepare_args] returns: the step it evaluates when
    [val_initial] is missing, the two evaluation points, [f_lim], and the
    oracle calls it makes. *)
Definition initial_step_of (initial_step_size : option (Tensor float))
  : Tensor float :=
  match initial_step_size with
  | Some s => s
  | None => broadcast (fone prec emax)
  end.

Definition prepared_val_initial (initial_step_size : option (Tensor float))
  (val_initial : option ValueAndGradient) : ValueAndGradient :=
  match val_initial with
  | Some v => v
  | None => value_and_gradients_function (initial_step_of initial_step_size)
  end.

Definition prepared_val_0 (val_0 : option ValueAndGradient)
  : ValueAndGradient :=
  match val_0 with
  | Some v => v
  | None => value_and_gradients_function (broadcast fzero)
  end.

Definition prepared_f_lim (val_0 : ValueAndGradient)
  (approximate_wolfe_threshold : float) : Tensor float :=
  tf_add prec emax (val_f val_0)
    (tf_mul prec emax (broadcast approximate_wolfe_threshold)
       (tf_abs (val_f val_0))).

Definition prepare_calls (initial_step_size : option (Tensor float))
  (val_initial val_0 : option ValueAndGradient) : list Call :=
  match val_initial with
  | Some _ => []
  | None => [initial_step_of initial_step_size]
  end ++
  match val_0 with
  | Some _ => []
  | None => [broadcast fzero]
  end.

(** The masks [failed] and [active] that [hager_zhang] computes from the
    validation and the supplied [converged] mask. *)
Definition entry_failed (val_0 val_initial : ValueAndGradient)
  (converged_arg : option (Tensor bool)) : Tensor bool :=
  ~~ init_converged_of converged_arg &&& ~~ valid_inputs val_0 val_initial.

Definition entry_active (val_0 val_initial : ValueAndGradient)
  (converged_arg : option (Tensor bool)) : Tensor bool :=
  ~~ init_converged_of converged_arg &&& valid_inputs val_0 val_initial.

(** The record [init_interval] that [hager_zhang] builds from the result
    [st] of [_fix_step_size]. *)
Definition entry_init_interval (val_0 val_initial : ValueAndGradient)
  (converged_arg : option (Tensor bool)) (prepare_evals : Z) (st : FixState)
  : HagerZhangLineSearchResult :=
  init_interval_of val_0 (fix_val st) (init_converged_of converged_arg)
    (entry_failed val_0 val_initial converged_arg) (fix_mask st)
    prepare_evals (fix_count st).

End EntryParts.

(** A float32 batch of two elements on the parabola: the first is supplied
    as converged although its initial step, -1, is not valid; the second
    starts from the step 2.5. *)
Module EntryScenario.

Definition steps : Tensor float :=
  fun i => match i with O => F32.of_Z (-1) | _ => F32.ratio 5 2 end.
Definition converged_arg : Tensor bool :=
  fun i => match i with O => true | _ => false end.
Definition threshold : float := F32.ratio 1 1000000.
Definition shrinkage_param : float := F32.ratio 66 100.
Definition expansion_param : float := F32.of_Z 5.
Definition sufficient_decrease_param : float := F32.ratio 1 10.
Definition curvature_param : float := F32.ratio 9 10.
Definition step_size_shrink_param : float := F32.ratio 1 10.

End EntryScenario.

(** ** The steps given to the oracle, as statements *)

(** Every component below [n] of every call of a trace is finite. *)
Definition oracle_calls_finite (n : nat) (tr : list Call) : Prop :=
  forall c, In c tr -> forall e, (e < n)%nat -> float_is_finite (c e) = true.

Section RepairCalls.

Variables prec emax : Z.
Variable n : nat.
Variable value_and_gradients_function : Oracle.

(** The safety rule as the specification words it, for the repair loop as
    [hager_zhang] runs it: the oracle is never given a non-finite step. *)
Definition repair_calls_finite_as_stated : Prop :=
  forall fuel val_0 val_initial converged_arg step_size_shrink_param st tr,
    _fix_step_size prec emax n value_and_gradients_function fuel val_initial
      (entry_active val_0 val_initial converged_arg) step_size_shrink_param
    = Some (st, tr) ->
    oracle_calls_finite n tr.

(** In each of the first [k] trips of the repair loop, the step the oracle
    is given for element [e] is the initial step of [e] as it is, and it is
    finite when the inputs of [e] are valid. *)
Definition repair_calls_outcome (step_size_shrink_param : float)
  (val_0 val_initial : ValueAndGradient) (active : Tensor bool) (e : nat)
  : Prop :=
  forall k j,
    (j < k)%nat ->
    nth j
      (fix_step_calls prec emax value_and_gradients_function
         step_size_shrink_param k (fix_step_start val_initial active))
      (broadcast fzero) e = val_x val_initial e /\
    (valid_inputs val_0 val_initial e = true ->
     float_is_finite
       (nth j
          (fix_step_calls prec emax value_and_gradients_function
             step_size_shrink_param k (fix_step_start val_initial active))
          (broadcast fzero) e) = true).

End RepairCalls.

Section OracleSteps.

Variables prec emax : Z.
Variable n : nat.
Variable update :
  Oracle -> ValueAndGradient -> ValueAndGradient -> ValueAndGradient ->
  Tensor float -> Tensor bool -> Traced UpdateResult.
Variable value_and_gradients_function : Oracle.

(** The steps that the repair loop and the bisection step give to the
    oracle for element [e]:
    - the repair loop returns after some number [k] of trips, and its calls
      are the calls of these trips;
    - in trip [j] the step passed is the current step times the shrink
      factor when [e] is under repair, and the current step as it is when
      not;
    - for an element that is not under repair when the loop starts, the
      step passed in every trip is its initial step, which is finite when
      the inputs of [e] are valid;
    - the bisection step returns, and the first step it passes is
      [(left.x + right.x) / 2] at [e], whatever its mask, the divisor being
      the float [m2 * 2^e2]. *)
Definition oracle_steps_outcome (step_size_shrink_param : float)
  (m2 : positive) (e2 : Z) (val_0 val_initial : ValueAndGradient)
  (active : Tensor bool) (e : nat) : Prop :=
  let st0 := fix_step_start val_initial active in
  let trips :=
    fix_step_trips prec emax value_and_gradients_function
      step_size_shrink_param in
  let calls :=
    fix_step_calls prec emax value_and_gradients_function
      step_size_shrink_param in
  (forall fuel, (Z.to_nat (iter_max prec emax) <= fuel)%nat ->
     exists k : nat,
       _fix_step_size prec emax n value_and_gradients_function fuel
         val_initial active step_size_shrink_param
       = Some (trips k st0, calls k st0)) /\
  (forall k j, (j < k)%nat ->
     nth j (calls k st0) (broadcast fzero) e =
     if fix_mask (trips j st0) e
     then SFmul prec emax (val_x (fix_val (trips j st0)) e)
            step_size_shrink_param
     else val_x (fix_val (trips j st0)) e) /\
  (fix_mask st0 e = false ->
   repair_calls_outcome prec emax value_and_gradients_function
     step_size_shrink_param val_0 val_initial active e) /\
  (forall search_interval bisect_mask f_lim,
     exists res c tr,
       _line_search_inner_bisection prec emax n update
         value_and_gradients_function search_interval bisect_mask f_lim
       = Some (res, c :: tr) /\
       c e =
       SFdiv prec emax
         (SFadd prec emax (val_x (left search_interval) e)
            (val_x (right search_interval) e))
         (S754_finite false m2 e2)).

End OracleSteps.

(** A float32 batch of two steps on the parabola: [10^20], where the value
    overflows, and an infinite step. *)
Module InfiniteStepScenario.

Definition steps : Tensor float :=
  fun i => match i with O => F32.of_Z (10 ^ 20) | _ => F32.pinf end.
Definition val_initial : ValueAndGradient := F32.parabola steps.
Definition val_0 : ValueAndGradient := F32.parabola (broadcast fzero).
Definition shrink : float := F32.ratio 1 10.

Definition repair : M FixState :=
  _fix_step_size F32.prec F32.emax 2 F32.parabola 23 val_initial
    (entry_active val_0 val_initial None) shrink.

End InfiniteStepScenario.


(** ** Further statements about one trip *)

Section TripStatements.

Variables prec emax : Z.
Variable n : nat.
Variable secant2 :
  Oracle -> ValueAndGradient -> HagerZhangLineSearchResult -> Tensor float ->
  float -> float -> Traced Secant2Result.
Variable update :
  Oracle -> ValueAndGradient -> ValueAndGradient -> ValueAndGradient ->
  Tensor float -> Tensor bool -> Traced UpdateResult.
Variable value_and_gradients_function : Oracle.

(** The bisection step, for an element [e] of its mask whose midpoint
    evaluation is not finite: it returns, [e] is failed, and its
    convergence flag and end points are those it had. *)
Definition failed_midpoint_outcome
  (search_interval : HagerZhangLineSearchResult) (active : Tensor bool)
  (f_lim : Tensor float) (e : nat) : Prop :=
  exists res tr,
    _line_search_inner_bisection prec emax n update
      value_and_gradients_function search_interval active f_lim
    = Some (res, tr) /\
    failed res e = true /\
    converged res e = converged search_interval e /\
    val_eq_at e (left res) (left search_interval) /\
    val_eq_at e (right res) (right search_interval).

(** A trip returns a state in which an element that is not failed and whose
    end points are very close in [x] is converged, and in which the end
    points of an element frozen by the secant2 step are those that step
    gave it. *)
Definition trip_end_outcome (val_0 : ValueAndGradient) (f_lim : Tensor float)
  (sufficient_decrease_param curvature_param shrinkage_param : float)
  (curr_interval : HagerZhangLineSearchResult) (e : nat) : Prop :=
  let sec :=
    trip_secant2_result secant2 value_and_gradients_function val_0 f_lim
      sufficient_decrease_param curvature_param curr_interval in
  exists next tr,
    _loop_body prec emax n secant2 update value_and_gradients_function val_0
      f_lim sufficient_decrease_param curvature_param shrinkage_param
      curr_interval = Some (next, tr) /\
    (failed next e = false ->
     _very_close prec emax (val_x (left next)) (val_x (right next)) e = true ->
     converged next e = true) /\
    (frozen sec e = true ->
     failed next e = failed sec e /\
     (converged sec e = true -> converged next e = true) /\
     val_eq_at e (left next) (left sec) /\
     val_eq_at e (right next) (right sec)).

End TripStatements.

(** One float32 element on the parabola, between 0 and [4 * 10^20]: the
    value at the midpoint overflows. *)
Module OverflowScenario.

Definition search_interval : HagerZhangLineSearchResult :=
  Demo.fresh_interval (Demo.parabola_at 0 1)
    (F32.parabola (broadcast (F32.of_Z (4 * 10 ^ 20)))).
Definition f_lim : Tensor float := val_f (left search_interval).

End OverflowScenario.

(** ** Further statements about the search loop *)

Section LoopStatements.

Variables prec emax : Z.
Variable n : nat.
Variable secant2 :
  Oracle -> ValueAndGradient -> HagerZhangLineSearchResult -> Tensor float ->
  float -> float -> Traced Secant2Result.
Variable update :
  Oracle -> ValueAndGradient -> ValueAndGradient -> ValueAndGradient ->
  Tensor float -> Tensor bool -> Traced UpdateResult.
Variable value_and_gradients_function : Oracle.

(** The loop returns, after at most [max_iterations - iterations] trips,
    each of which adds at least 1 to [iterations]. *)
Definition search_returns (fuel : nat) (s : HagerZhangLineSearchResult)
  (val_0 : ValueAndGradient) (f_lim : Tensor float) (max_iterations : Z)
  (sufficient_decrease_param curvature_param shrinkage_param : float) : Prop :=
  exists k res tr,
    (k <= Z.to_nat (max_iterations - iterations s))%nat /\
    _line_search_after_bracketing prec emax n secant2 update
      value_and_gradients_function fuel s val_0 f_lim max_iterations
      sufficient_decrease_param curvature_param shrinkage_param
    = Some (res, tr) /\
    loop_trips prec emax n secant2 update value_and_gradients_function k
      val_0 f_lim sufficient_decrease_param curvature_param shrinkage_param s
    = Some (res, tr) /\
    iterations s + Z.of_nat k <= iterations res.

(** In a result of the loop the budget is used up or every element is
    frozen; with no trip to make the loop returns its argument and calls
    nothing. *)
Definition search_exit (fuel : nat) (s : HagerZhangLineSearchResult)
  (val_0 : ValueAndGradient) (f_lim : Tensor float) (max_iterations : Z)
  (sufficient_decrease_param curvature_param shrinkage_param : float) : Prop :=
  let run :=
    _line_search_after_bracketing prec emax n secant2 update
      value_and_gradients_function fuel s val_0 f_lim max_iterations
      sufficient_decrease_param curvature_param shrinkage_param in
  (forall res tr,
     run = Some (res, tr) ->
     max_iterations <= iterations res \/
     forall e, (e < n)%nat -> frozen res e = true) /\
  (max_iterations <= iterations s \/
   (forall e, (e < n)%nat -> frozen s e = true) ->
   run = Some (s, [])).

(** In a result of the loop [func_evals] has grown by the number of oracle
    calls of the loop. *)
Definition search_counts_calls (fuel : nat) (s : HagerZhangLineSearchResult)
  (val_0 : ValueAndGradient) (f_lim : Tensor float) (max_iterations : Z)
  (sufficient_decrease_param curvature_param shrinkage_param : float) : Prop :=
  forall res tr,
    _line_search_after_bracketing prec emax n secant2 update
      value_and_gradients_function fuel s val_0 f_lim max_iterations
      sufficient_decrease_param curvature_param shrinkage_param
    = Some (res, tr) ->
    func_evals res = func_evals s + Z.of_nat (length tr).

End LoopStatements.

(** ** Further statements about the entry point *)

Section EntryStatements.

Variables prec emax : Z.
Variable n : nat.
Variable bracket :
  Oracle -> HagerZhangLineSearchResult -> Tensor float -> Z -> float ->
  Traced BracketResult.
Variable secant2 :
  Oracle -> ValueAndGradient -> HagerZhangLineSearchResult -> Tensor float ->
  float -> float -> Traced Secant2Result.
Variable update :
  Oracle -> ValueAndGradient -> ValueAndGradient -> ValueAndGradient ->
  Tensor float -> Tensor bool -> Traced UpdateResult.
Variable value_and_gradients_function : Oracle.

(** [hager_zhang] returns with the oracle calls of [_prepare_args] only, at
    most two: no trip is counted, [func_evals] is the number of these
    calls, [left] is the evaluation at 0, and every element is either
    converged, as supplied, with the evaluation at 0 as [right], or failed,
    with the evaluation at the initial step as [right]. *)
Definition returns_without_search (fuel : nat)
  (initial_step_size : option (Tensor float))
  (value_at_initial_step value_at_zero : option ValueAndGradient)
  (converged_arg : option (Tensor bool))
  (threshold_use_approximate_wolfe_condition shrinkage_param expansion_param
   sufficient_decrease_param curvature_param step_size_shrink_param : float)
  (max_iterations : Z) : Prop :=
  let val_0 := prepared_val_0 value_and_gradients_function value_at_zero in
  let val_initial :=
    prepared_val_initial prec emax value_and_gradients_function
      initial_step_size value_at_initial_step in
  let calls :=
    prepare_calls prec emax initial_step_size value_at_initial_step
      value_at_zero in
  exists res,
    hager_zhang prec emax n bracket secant2 update
      value_and_gradients_function fuel initial_step_size
      value_at_initial_step value_at_zero converged_arg
      threshold_use_approximate_wolfe_condition shrinkage_param
      expansion_param sufficient_decrease_param curvature_param
      step_size_shrink_param max_iterations = Some (res, calls) /\
    (length calls <= 2)%nat /\
    iterations res = 0 /\
    func_evals res = Z.of_nat (length calls) /\
    left res = val_0 /\
    forall e, (e < n)%nat ->
      converged res e = init_converged_of converged_arg e /\
      failed res e = negb (init_converged_of converged_arg e) /\
      val_eq_at e (right res)
        (if init_converged_of converged_arg e then val_0 else val_initial).

(** In every result of [hager_zhang], element [e] is failed. *)
Definition failed_in_result (fuel : nat)
  (initial_step_size : option (Tensor float))
  (value_at_initial_step value_at_zero : option ValueAndGradient)
  (converged_arg : option (Tensor bool))
  (threshold_use_approximate_wolfe_condition shrinkage_param expansion_param
   sufficient_decrease_param curvature_param step_size_shrink_param : float)
  (max_iterations : Z) (e : nat) : Prop :=
  forall res tr,
    hager_zhang prec emax n bracket secant2 update
      value_and_gradients_function fuel initial_step_size
      value_at_initial_step value_at_zero converged_arg
      threshold_use_approximate_wolfe_condition shrinkage_param
      expansion_param sufficient_decrease_param curvature_param
      step_size_shrink_param max_iterations = Some (res, tr) ->
    failed res e = true.

(** In every result of [hager_zhang], both end points of element [e] are
    the evaluation at 0. *)
Definition zero_point_in_result (fuel : nat)
  (initial_step_size : option (Tensor float))
  (value_at_initial_step value_at_zero : option ValueAndGradient)
  (converged_arg : option (Tensor bool))
  (threshold_use_approximate_wolfe_condition shrinkage_param expansion_param
   sufficient_decrease_param curvature_param step_size_shrink_param : float)
  (max_iterations : Z) (e : nat) : Prop :=
  forall res tr,
    hager_zhang prec emax n bracket secant2 update
      value_and_gradients_function fuel initial_step_size
      value_at_initial_step value_at_zero converged_arg
      threshold_use_approximate_wolfe_condition shrinkage_param
      expansion_param sufficient_decrease_param curvature_param
      step_size_shrink_param max_iterations = Some (res, tr) ->
    val_eq_at e (left res)
      (prepared_val_0 value_and_gradients_function value_at_zero) /\
    val_eq_at e (right res)
      (prepared_val_0 value_and_gradients_function value_at_zero).

(** Every result of [_bracket_and_search] latches element [e] of the
    initial interval. *)
Definition bracket_search_latched (fuel : nat)
  (init_interval : HagerZhangLineSearchResult) (f_lim : Tensor float)
  (max_iterations : Z)
  (shrinkage_param expansion_param sufficient_decrease_param
   curvature_param : float) (e : nat) : Prop :=
  forall res tr,
    _bracket_and_search prec emax n bracket secant2 update
      value_and_gradients_function fuel init_interval f_lim max_iterations
      shrinkage_param expansion_param sufficient_decrease_param
      curvature_param = Some (res, tr) ->
    latched e init_interval res.

(** [_bracket_and_search] returns the bracket that [hzl.bracket] found, with
    the calls of [hzl.bracket] only, and in it every element is converged
    or failed: an element that is not converged is failed. *)
Definition bracket_exhausted_outcome (fuel : nat)
  (init_interval : HagerZhangLineSearchResult) (f_lim : Tensor float)
  (max_iterations : Z)
  (shrinkage_param expansion_param sufficient_decrease_param
   curvature_param : float) : Prop :=
  let br :=
    bracket value_and_gradients_function init_interval f_lim max_iterations
      expansion_param in
  exists res,
    _bracket_and_search prec emax n bracket secant2 update
      value_and_gradients_function fuel init_interval f_lim max_iterations
      shrinkage_param expansion_param sufficient_decrease_param
      curvature_param = Some (res, snd br) /\
    res = line_search_args prec emax init_interval max_iterations (fst br) /\
    forall e, converged res e = false -> failed res e = true.

End EntryStatements.

(** ** Further statements about the repair loop *)

Section RepairStatements.

Variables prec emax : Z.
Variable value_and_gradients_function : Oracle.
Variable step_size_shrink_param : float.

(** Element [e], out of the mask after [j] trips, is out of the mask after
    any further trips, with the step it had. *)
Definition repair_latched (st : FixState) (j : nat) (e : nat) : Prop :=
  forall k,
    fix_mask
      (fix_step_trips prec emax value_and_gradients_function
         step_size_shrink_param (j + k) st) e = false /\
    val_x
      (fix_val
         (fix_step_trips prec emax value_and_gradients_function
            step_size_shrink_param (j + k) st)) e =
    val_x
      (fix_val
         (fix_step_trips prec emax value_and_gradients_function
            step_size_shrink_param j st)) e.

End RepairStatements.

(** One invalid float32 element on the parabola: the initial step is -1. *)
Module InvalidScenario.

Definition initial_step_size : Tensor float := broadcast (F32.of_Z (-1)).

End InvalidScenario.

(** The interval of the parabola scenario with its element marked
    converged. *)
Module FrozenScenario.

Definition init_interval : HagerZhangLineSearchResult :=
  replace_converged ParabolaScenario.curr_interval (broadcast true).

End FrozenScenario.

(** ** The flags after a trip, as a statement *)

Section FlagStatements.

Variables prec emax : Z.
Variable n : nat.
Variable secant2 :
  Oracle -> ValueAndGradient -> HagerZhangLineSearchResult -> Tensor float ->
  float -> float -> Traced Secant2Result.
Variable update :
  Oracle -> ValueAndGradient -> ValueAndGradient -> ValueAndGradient ->
  Tensor float -> Tensor bool -> Traced UpdateResult.
Variable value_and_gradients_function : Oracle.

(** In every result of a trip, element [e] is not both converged and
    failed. *)
Definition trip_flags_exclusive (val_0 : ValueAndGradient)
  (f_lim : Tensor float)
  (sufficient_decrease_param curvature_param shrinkage_param : float)
  (curr_interval : HagerZhangLineSearchResult) (e : nat) : Prop :=
  forall next tr,
    _loop_body prec emax n secant2 update value_and_gradients_function val_0
      f_lim sufficient_decrease_param curvature_param shrinkage_param
      curr_interval = Some (next, tr) ->
    converged next e && failed next e = false.

End FlagStatements.

(** Tensors with a NaN. *)
Module NanScenario.

Definition nan_t : Tensor float := broadcast S754_nan.

End NanScenario.

(** ** The primitives of [hager_zhang_lib], from the specification

    The module [hager_zhang_lib] is not part of the sources at hand.  The
    definitions below follow sections 4.3 and 4.4 of the specification and
    the interval rules of Hager and Zhang (2006) that they refer to; they
    are used to run the controller on concrete inputs.  The bisection loop
    of the update is cut after [bisect_trips] trips. *)

Definition tf_le (a b : Tensor float) : Tensor bool :=
  fun i => SFleb (a i) (b i).
Definition tf_eq (a b : Tensor float) : Tensor bool :=
  fun i => SFeqb (a i) (b i).

(** [tf.reduce_all] over a batch of [n] elements. *)
Definition reduce_all (n : nat) (m : Tensor bool) : bool :=
  forallb m (seq 0 n).

Module Hzl.

(** The loop variables of the bracketing and bisection loops. *)
Record IntermediateResult : Type := mkIntermediate {
  ir_iteration : Z;
  ir_stopped : Tensor bool;
  ir_failed : Tensor bool;
  ir_num_evals : Z;
  ir_left : ValueAndGradient;
  ir_right : ValueAndGradient
}.

Section Primitives.

Variables prec emax : Z.
Variable n : nat.
Variable bisect_trips : nat.

Definition zero_t : Tensor float := broadcast fzero.

(** Modelled from the spec: the secant step (section 4.4 and glossary), the
    zero of the line through the derivatives at the two end points. *)
Definition _secant (val_left val_right : ValueAndGradient) : Tensor float :=
  tf_div prec emax
    (tf_sub prec emax
       (tf_mul prec emax (val_x val_left) (val_df val_right))
       (tf_mul prec emax (val_x val_right) (val_df val_left)))
    (tf_sub prec emax (val_df val_right) (val_df val_left)).

(** Modelled from the spec: the Wolfe and the approximate Wolfe conditions
    (section 4.4 and glossary): sufficient decrease with [delta] and
    curvature with [sigma]; near the minimum, where the value is at most
    [f_lim], the decrease is tested on the derivative. *)
Definition _satisfies_wolfe (val_0 val_c : ValueAndGradient)
  (f_lim : Tensor float) (sufficient_decrease_param curvature_param : float)
  : Tensor bool :=
  let exact_wolfe_suff_dec :=
    tf_ge
      (tf_mul prec emax (broadcast sufficient_decrease_param) (val_df val_0))
      (tf_div prec emax (tf_sub prec emax (val_f val_c) (val_f val_0))
         (val_x val_c)) in
  let wolfe_curvature :=
    tf_ge (val_df val_c)
      (tf_mul prec emax (broadcast curvature_param) (val_df val_0)) in
  let exact_wolfe := exact_wolfe_suff_dec &&& wolfe_curvature in
  let approx_wolfe_applies := tf_le (val_f val_c) f_lim in
  let approx_wolfe_suff_dec :=
    tf_ge
      (tf_mul prec emax
         (broadcast
            (SFsub prec emax
               (SFmul prec emax (ftwo prec emax) sufficient_decrease_param)
               (fone prec emax)))
         (val_df val_0))
      (val_df val_c) in
  let approx_wolfe :=
    approx_wolfe_applies &&& approx_wolfe_suff_dec &&& wolfe_curvature in
  exact_wolfe ||| approx_wolfe.

(** Modelled from the spec: the bisection of the interval-update rule
    (section 4.4): while an element is not stopped, evaluate the midpoint;
    a midpoint with a negative slope and a value of at most [f_lim] becomes
    the left end, any other the right end; an element stops when its right
    end has a slope that is not negative, and fails when the evaluation is
    not finite or the midpoint is an end point. *)
Definition bisect_body (vgf : Oracle) (f_lim : Tensor float)
  (curr : IntermediateResult) : IntermediateResult * Call :=
  let c :=
    tf_div prec emax
      (tf_add prec emax (val_x (ir_left curr)) (val_x (ir_right curr)))
      (broadcast (ftwo prec emax)) in
  let mid := vgf c in
  let failed :=
    ir_failed curr ||| ~~ is_finite mid |||
    tf_eq (val_x mid) (val_x (ir_left curr)) |||
    tf_eq (val_x mid) (val_x (ir_right curr)) in
  let to_update := ~~ (ir_stopped curr ||| failed) in
  let update_left :=
    tf_lt (val_df mid) zero_t &&& tf_le (val_f mid) f_lim in
  let left := val_where (to_update &&& update_left) mid (ir_left curr) in
  let right := val_where (to_update &&& ~~ update_left) mid (ir_right curr) in
  let stopped :=
    ir_stopped curr ||| failed ||| tf_ge (val_df right) zero_t in
  (mkIntermediate (ir_iteration curr) stopped failed (ir_num_evals curr + 1)
     left right, c).

Fixpoint bisect_loop (fuel : nat) (vgf : Oracle) (f_lim : Tensor float)
  (curr : IntermediateResult) : Traced IntermediateResult :=
  match fuel with
  | O => (curr, [])
  | S k =>
      if negb (reduce_all n (ir_stopped curr))
      then
        let '(next, c) := bisect_body vgf f_lim curr in
        let '(res, t) := bisect_loop k vgf f_lim next in
        (res, c :: t)
      else (curr, [])
  end.

Definition _bisect (vgf : Oracle) (initial_args : IntermediateResult)
  (f_lim : Tensor float) : Traced IntermediateResult :=
  bisect_loop bisect_trips vgf f_lim initial_args.

(** Modelled from the spec: [hzl.update] (section 4.4), the interval-update
    rule on a trial point, restricted to the [active] mask: a trial point
    inside the interval with a negative slope and a value of at most
    [f_lim] becomes the left end; otherwise it becomes the right end, and
    the interval is bisected when its slope is negative.  It returns the
    bracket, the trip count (it counts none), the failure flag and the
    number of evaluations. *)
Definition update (vgf : Oracle)
  (val_left val_right val_trial : ValueAndGradient) (f_lim : Tensor float)
  (active : Tensor bool) : Traced UpdateResult :=
  let within_range :=
    tf_lt (val_x val_left) (val_x val_trial) &&&
    tf_lt (val_x val_trial) (val_x val_right) &&& active in
  let valid_left :=
    tf_lt (val_df val_trial) zero_t &&& tf_le (val_f val_trial) f_lim in
  let needs_bisect :=
    within_range &&& tf_lt (val_df val_trial) zero_t &&&
    tf_gt (val_f val_trial) f_lim in
  let left := val_where (within_range &&& valid_left) val_trial val_left in
  let right :=
    val_where (within_range &&& ~~ valid_left) val_trial val_right in
  let '(r, t) :=
    _bisect vgf
      (mkIntermediate 0 (~~ needs_bisect) (broadcast false) 0 left right)
      f_lim in
  (mkUpdateResult (ir_iteration r) (ir_failed r) (ir_num_evals r)
     (ir_left r) (ir_right r), t).

(** The state of a secant2 step between its parts. *)
Record Secant2State : Type := mkSecant2State {
  st_active : Tensor bool;
  st_converged : Tensor bool;
  st_failed : Tensor bool;
  st_num_evals : Z;
  st_left : ValueAndGradient;
  st_right : ValueAndGradient
}.

Definition secant2_result (s : Secant2State) : Secant2Result :=
  mkSecant2Result (st_converged s) (st_failed s) (st_num_evals s)
    (st_left s) (st_right s).

(** The second part of the step: the Wolfe test at the point of the
    second secant step, and the update of the elements still active. *)
Definition _secant2_inner_update (vgf : Oracle) (initial_args : Secant2State)
  (val_0 val_c : ValueAndGradient) (f_lim : Tensor float)
  (sufficient_decrease_param curvature_param : float)
  : Traced Secant2State :=
  let new_failed := st_active initial_args &&& ~~ is_finite val_c in
  let active := st_active initial_args &&& ~~ new_failed in
  let failed := st_failed initial_args ||| new_failed in
  let found_wolfe :=
    active &&&
    _satisfies_wolfe val_0 val_c f_lim sufficient_decrease_param
      curvature_param in
  let val_left := val_where found_wolfe val_c (st_left initial_args) in
  let val_right := val_where found_wolfe val_c (st_right initial_args) in
  let converged := st_converged initial_args ||| found_wolfe in
  let active := active &&& ~~ found_wolfe in
  if reduce_any n active
  then
    let '(update_result, t) :=
      update vgf val_left val_right val_c f_lim active in
    (mkSecant2State (broadcast false) converged
       (failed ||| up_failed update_result)
       (st_num_evals initial_args + up_num_evals update_result)
       (up_left update_result) (up_right update_result), t)
  else
    (mkSecant2State active converged failed (st_num_evals initial_args)
       val_left val_right, []).

(** The first part: the update on the point of the first secant step, and
    the second secant step from the end that moved. *)
Definition _secant2_inner (vgf : Oracle) (initial_args : Secant2State)
  (val_0 val_c : ValueAndGradient) (f_lim : Tensor float)
  (sufficient_decrease_param curvature_param : float)
  : Traced Secant2State :=
  let '(update_result, t1) :=
    update vgf (st_left initial_args) (st_right initial_args) val_c f_lim
      (st_active initial_args) in
  let active := st_active initial_args &&& ~~ up_failed update_result in
  let failed := st_failed initial_args ||| up_failed update_result in
  let val_left :=
    val_where active (up_left update_result) (st_left initial_args) in
  let val_right :=
    val_where active (up_right update_result) (st_right initial_args) in
  let updated_left := active &&& tf_eq (val_x val_left) (val_x val_c) in
  let updated_right := active &&& tf_eq (val_x val_right) (val_x val_c) in
  let is_new := updated_left ||| updated_right in
  let next_c :=
    tf_where updated_left (_secant (st_left initial_args) val_left)
      (val_x val_c) in
  let next_c :=
    tf_where updated_right (_secant (st_right initial_args) val_right)
      next_c in
  let in_range :=
    tf_le (val_x val_left) next_c &&& tf_le next_c (val_x val_right) in
  let needs_extra_eval := reduce_any n (in_range &&& is_new) in
  let num_evals :=
    st_num_evals initial_args + up_num_evals update_result +
    (if needs_extra_eval then 1 else 0) in
  let next_args :=
    mkSecant2State (active &&& in_range) (st_converged initial_args) failed
      num_evals val_left val_right in
  if reduce_any n (st_active next_args)
  then
    let next_val_c := if needs_extra_eval then vgf next_c else val_c in
    let '(res, t2) :=
      _secant2_inner_update vgf next_args val_0 next_val_c f_lim
        sufficient_decrease_param curvature_param in
    (res, t1 ++ (if needs_extra_eval then [next_c] else []) ++ t2)
  else (next_args, t1).

(** Modelled from the spec: [hzl.secant2] (section 4.4): one candidate by a
    secant step, refined by a second secant step; the Wolfe conditions are
    tested at the candidate, where a converged element gets both end
    points; a candidate whose evaluation is not finite fails the element;
    the other elements are narrowed by [hzl.update].  It returns the
    bracket, the flags and the running number of evaluations. *)
Definition secant2 (vgf : Oracle) (val_0 : ValueAndGradient)
  (search_interval : HagerZhangLineSearchResult) (f_lim : Tensor float)
  (sufficient_decrease_param curvature_param : float)
  : Traced Secant2Result :=
  let c := _secant (left search_interval) (right search_interval) in
  let val_c := vgf c in
  let failed_c := failed search_interval ||| ~~ is_finite val_c in
  let converged_c :=
    converged search_interval |||
    (~~ failed_c &&&
     _satisfies_wolfe val_0 val_c f_lim sufficient_decrease_param
       curvature_param) in
  let new_converged := converged_c &&& ~~ converged search_interval in
  let val_left := val_where new_converged val_c (left search_interval) in
  let val_right := val_where new_converged val_c (right search_interval) in
  let initial_args :=
    mkSecant2State (~~ failed_c &&& ~~ converged_c) converged_c failed_c
      (func_evals search_interval + 1) val_left val_right in
  if reduce_any n (st_active initial_args)
  then
    let '(res, t) :=
      _secant2_inner vgf initial_args val_0 val_c f_lim
        sufficient_decrease_param curvature_param in
    (secant2_result res, c :: t)
  else (secant2_result initial_args, [c]).

(** Modelled from the spec: the expansion loop of [hzl.bracket]
    (section 4.3): while the trip budget lasts and an element is not
    stopped, the right end becomes the left end and the new right end is
    the old one times the expansion factor; an element stops when it fails,
    when the slope at its right end is not negative, or when the value
    there exceeds [f_lim]. *)
Definition bracket_body (vgf : Oracle) (f_lim : Tensor float)
  (expansion_param : float) (curr : IntermediateResult)
  : IntermediateResult * Call :=
  let c :=
    tf_mul prec emax (broadcast expansion_param) (val_x (ir_right curr)) in
  let new_right := vgf c in
  let left := val_where (ir_stopped curr) (ir_left curr) (ir_right curr) in
  let right := val_where (ir_stopped curr) (ir_right curr) new_right in
  let failed_c := ir_failed curr ||| ~~ is_finite right in
  let bracketed := tf_ge (val_df right) zero_t in
  let needs_bisect :=
    tf_lt (val_df right) zero_t &&& tf_gt (val_f right) f_lim in
  (mkIntermediate (ir_iteration curr + 1)
     (ir_stopped curr ||| failed_c ||| bracketed ||| needs_bisect) failed_c
     (ir_num_evals curr + 1) left right, c).

Fixpoint bracket_loop (fuel : nat) (vgf : Oracle) (f_lim : Tensor float)
  (max_iterations : Z) (expansion_param : float) (curr : IntermediateResult)
  : Traced IntermediateResult :=
  match fuel with
  | O => (curr, [])
  | S k =>
      if (ir_iteration curr <? max_iterations) &&
         negb (reduce_all n (ir_stopped curr))
      then
        let '(next, c) := bracket_body vgf f_lim expansion_param curr in
        let '(res, t) :=
          bracket_loop k vgf f_lim max_iterations expansion_param next in
        (res, c :: t)
      else (curr, [])
  end.

(** Modelled from the spec: [hzl.bracket] (section 4.3): the expansion
    loop, then the bisection of the elements whose right end has a negative
    slope and a value above [f_lim].  The loop makes at most
    [max_iterations - iterations] trips. *)
Definition bracket (vgf : Oracle)
  (search_interval : HagerZhangLineSearchResult) (f_lim : Tensor float)
  (max_iterations : Z) (expansion_param : float) : Traced BracketResult :=
  let already_stopped :=
    failed search_interval ||| converged search_interval in
  let bracketed := tf_ge (val_df (right search_interval)) zero_t in
  let needs_bisect :=
    tf_lt (val_df (right search_interval)) zero_t &&&
    tf_gt (val_f (right search_interval)) f_lim in
  let initial_args :=
    mkIntermediate (iterations search_interval)
      (already_stopped ||| bracketed ||| needs_bisect)
      (failed search_interval) (func_evals search_interval)
      (left search_interval) (right search_interval) in
  let '(bracket_result, t1) :=
    bracket_loop (Z.to_nat (max_iterations - iterations search_interval)) vgf
      f_lim max_iterations expansion_param initial_args in
  let needs_bisect :=
    tf_lt (val_df (ir_right bracket_result)) zero_t &&&
    tf_gt (val_f (ir_right bracket_result)) f_lim in
  let stopped :=
    already_stopped ||| ir_failed bracket_result ||| ~~ needs_bisect in
  let left_c :=
    val_where stopped (ir_left bracket_result) (left search_interval) in
  let '(r, t2) :=
    _bisect vgf
      (mkIntermediate (ir_iteration bracket_result) stopped
         (ir_failed bracket_result) (ir_num_evals bracket_result) left_c
         (ir_right bracket_result)) f_lim in
  (mkBracketResult (ir_iteration r) (ir_failed r) (ir_num_evals r)
     (ir_left r) (ir_right r), t1 ++ t2).

End Primitives.

End Hzl.

(** ** Runs in float32 with these primitives *)

Module Runs.

Definition bisect_trips : nat := 64.

(** An objective with a long slope of -1 and a steep wall near [x = 2]:
    [f(x) = (x/2)^16 / 4 - x] and [df(x) = 2 (x/2)^15 - 1], computed in
    float32 on every element. *)
Definition square (a : float) : float := SFmul F32.prec F32.emax a a.
Definition wall_f (a : float) : float :=
  let h := SFdiv F32.prec F32.emax a (F32.of_Z 2) in
  SFsub F32.prec F32.emax
    (SFdiv F32.prec F32.emax (square (square (square (square h))))
       (F32.of_Z 4))
    a.
Definition wall_df (a : float) : float :=
  let h := SFdiv F32.prec F32.emax a (F32.of_Z 2) in
  let h2 := square h in
  let h4 := square h2 in
  let h8 := square h4 in
  (* h^15 = h^8 * h^4 * h^2 * h *)
  SFsub F32.prec F32.emax
    (SFmul F32.prec F32.emax (F32.of_Z 2)
       (SFmul F32.prec F32.emax
          (SFmul F32.prec F32.emax (SFmul F32.prec F32.emax h8 h4) h2) h))
    (F32.of_Z 1).
Definition wall : Oracle :=
  fun c => mkVal c (fun i => wall_f (c i)) (fun i => wall_df (c i)).

(** [hager_zhang] on a batch of [n] elements with the default parameters. *)
Definition run (n : nat) (vgf : Oracle) (initial_step_size : Tensor float)
  (converged_arg : option (Tensor bool)) (max_iterations : Z)
  : M HagerZhangLineSearchResult :=
  hager_zhang F32.prec F32.emax n
    (Hzl.bracket F32.prec F32.emax n bisect_trips)
    (Hzl.secant2 F32.prec F32.emax n bisect_trips)
    (Hzl.update F32.prec F32.emax n bisect_trips) vgf 50
    (Some initial_step_size) None None converged_arg
    EntryScenario.threshold EntryScenario.shrinkage_param
    EntryScenario.expansion_param EntryScenario.sufficient_decrease_param
    EntryScenario.curvature_param EntryScenario.step_size_shrink_param
    max_iterations.

(** The flags, the trip count and the steps of the end points of element
    [e] of a result. *)
Definition summary (e : nat) (m : M HagerZhangLineSearchResult)
  : option (bool * bool * Z * float * float) :=
  match m with
  | Some (r, _) =>
      Some (converged r e, failed r e, iterations r,
            val_x (left r) e, val_x (right r) e)
  | None => None
  end.

End Runs.

(** From [s] to [r] the flags that are set stay set, and an element that is
    not active in [s] keeps its end points. *)
Definition kept (e : nat) (s r : Hzl.Secant2State) : Prop :=
  (Hzl.st_converged s e = true -> Hzl.st_converged r e = true) /\
  (Hzl.st_failed s e = true -> Hzl.st_failed r e = true) /\
  (Hzl.st_active s e = false ->
   val_eq_at e (Hzl.st_left r) (Hzl.st_left s) /\
   val_eq_at e (Hzl.st_right r) (Hzl.st_right s)).


(** The brackets [0, 2] and [1, 2] of the objective with a wall: the values
    at the end points are 0 and -1.75, and about -1 and -1.75. *)
Module SteepScenario.

Definition interval (l r : Z) : HagerZhangLineSearchResult :=
  mkResult (broadcast false) (broadcast false) 0 0
    (Runs.wall (broadcast (F32.of_Z l))) (Runs.wall (broadcast (F32.of_Z r))).

Definition curr_interval : HagerZhangLineSearchResult := interval 0 2.
Definition secant2_result : HagerZhangLineSearchResult := interval 1 2.

End SteepScenario.

(** * Properties *)

(** ** Floating-point comparison *)

Ltac destruct_signs :=
  repeat match goal with s : bool |- _ => destruct s end.

Lemma SFcompare_refl_of_eq (a b : float) :
  SFcompare a b = Some Eq -> SFcompare b b = Some Eq.
Proof.
  destruct a, b; simpl; intros H; try discriminate H; try reflexivity;
    destruct_signs; try discriminate H; try reflexivity;
    rewrite Z.compare_refl, Pos.compare_cont_refl; reflexivity.
Qed.

(** ** The comparator [_very_close] *)

Section VeryClose.

Variables prec emax : Z.

Lemma very_close_unfold (x y : Tensor float) (i : nat) :
  _very_close prec emax x y i = SFleb (y i) (nextafter prec emax (x i) (y i)).
Proof. reflexivity. Qed.

(** On equal arguments the comparator holds. *)
Lemma very_close_eq (x y : Tensor float) (i : nat) :
  SFeqb (x i) (y i) = true -> _very_close prec emax x y i = true.
Proof.
  rewrite very_close_unfold. unfold SFeqb, nextafter.
  destruct (SFcompare (x i) (y i)) as [[ | | ] | ] eqn:Hc; try discriminate.
  intros _. unfold SFleb. rewrite (SFcompare_refl_of_eq _ _ Hc). reflexivity.
Qed.

(** Below its second argument the comparator tests whether the successor of
    the first reaches the second. *)
Lemma very_close_lt (x y : Tensor float) (i : nat) :
  SFltb (x i) (y i) = true ->
  _very_close prec emax x y i = SFleb (y i) (SFsucc prec emax (x i)).
Proof.
  rewrite very_close_unfold. unfold SFltb, nextafter.
  destruct (SFcompare (x i) (y i)) as [[ | | ] | ]; try discriminate.
  reflexivity.
Qed.

(** With a NaN on either side the comparator fails. *)
Lemma very_close_nan (x y : Tensor float) (i : nat) :
  SFcompare (x i) (y i) = None -> _very_close prec emax x y i = false.
Proof.
  rewrite very_close_unfold. unfold nextafter. intros ->.
  unfold SFleb. destruct (y i); reflexivity.
Qed.

End VeryClose.

(** C9: in float32 the comparator holds for [x = 10^6] and [y = 1], which
    are far more than one unit in the last place apart: one step from 1
    towards [10^6] does not reach [10^6]; with the arguments swapped it
    fails.  So the bracket [1, 2] of the objective with a wall, whose values
    are about -1 and -1.75, passes the flatness test of the shrinkage
    check. *)
Theorem very_close_far_apart :
  _very_close F32.prec F32.emax (broadcast (F32.of_Z 1000000))
    (broadcast (F32.of_Z 1)) 0%nat = true /\
  one_step_reaches F32.prec F32.emax (F32.of_Z 1000000) (F32.of_Z 1) = false /\
  _very_close F32.prec F32.emax (broadcast (F32.of_Z 1))
    (broadcast (F32.of_Z 1000000)) 0%nat = false /\
  func_is_flat F32.prec F32.emax SteepScenario.curr_interval
    SteepScenario.secant2_result 0%nat = true.
Proof. repeat split; vm_compute; reflexivity. Qed.

(** The comparator is not the test of the specification: in float32 it
    holds for [(2, 1)], although one step from 1 towards 2 does not reach
    2. *)
Lemma very_close_not_symmetric : ~ very_close_as_stated F32.prec F32.emax.
Proof.
  intros H.
  destruct (H (broadcast (F32.of_Z 2)) (broadcast (F32.of_Z 1)) 0%nat) as [H1 _].
  vm_compute in H1. discriminate H1.
Qed.

(** ** Masks *)

Lemma reduce_any_false (n : nat) (m : Tensor bool) :
  reduce_any n m = false -> forall e, (e < n)%nat -> m e = false.
Proof.
  unfold reduce_any. intros H e He.
  destruct (m e) eqn:Hm; [ | reflexivity ].
  assert (Hex : existsb m (seq 0 n) = true).
  { apply existsb_exists. exists e. split; [ | exact Hm ].
    apply in_seq. lia. }
  congruence.
Qed.

Lemma reduce_any_true (n : nat) (m : Tensor bool) (e : nat) :
  (e < n)%nat -> m e = true -> reduce_any n m = true.
Proof.
  intros He Hm. destruct (reduce_any n m) eqn:H; [ reflexivity | ].
  rewrite (reduce_any_false n m H e He) in Hm. discriminate.
Qed.

(** ** The step-size repair loop *)

Section Repair.

Variables prec emax : Z.
Variable n : nat.
Variable value_and_gradients_function : Oracle.
Variable step_size_shrink_param : float.

Notation cond := (fix_step_cond prec emax n).
Notation body :=
  (fix_step_body prec emax value_and_gradients_function step_size_shrink_param).
Notation trip :=
  (fix_step_trip prec emax value_and_gradients_function step_size_shrink_param).
Notation trips :=
  (fix_step_trips prec emax value_and_gradients_function step_size_shrink_param).
Notation calls :=
  (fix_step_calls prec emax value_and_gradients_function step_size_shrink_param).
Notation imax := (iter_max prec emax).

(** One trip makes one oracle call. *)
Lemma fix_step_body_trip (st : FixState) :
  body st =
  Some (trip st, [fix_step_call prec emax step_size_shrink_param st]).
Proof. destruct st as [[i val_c] to_fix]. reflexivity. Qed.

Lemma fix_count_trips (k : nat) (st : FixState) :
  fix_count (trips k st) = fix_count st + Z.of_nat k.
Proof.
  revert st. induction k as [ | k IH]; intros st.
  - simpl. lia.
  - cbn [fix_step_trips]. rewrite IH. destruct st as [[i v] m].
    unfold fix_count. simpl fst. lia.
Qed.

Lemma length_fix_calls (k : nat) (st : FixState) : length (calls k st) = k.
Proof.
  revert st. induction k as [ | k IH]; intros st; simpl; [ | rewrite IH ];
    reflexivity.
Qed.

(** The loop stops after some number [k] of trips, at most the ceiling,
    having made the oracle calls of these [k] trips. *)
Lemma fix_loop_run (fuel : nat) (st : FixState) :
  (Z.to_nat (imax - fix_count st) <= fuel)%nat ->
  exists k : nat,
    Z.of_nat k <= Z.max 0 (imax - fix_count st) /\
    while_loop fuel cond body st = Some (trips k st, calls k st) /\
    cond (trips k st) = false.
Proof.
  revert st. induction fuel as [ | fuel IH]; intros st Hfuel.
  - exists 0%nat. simpl. destruct (cond st) eqn:Hc.
    + exfalso. destruct st as [[i v] m]. unfold fix_step_cond in Hc.
      apply andb_prop in Hc. destruct Hc as [Hi _].
      apply Z.ltb_lt in Hi. unfold fix_count in Hfuel. simpl in Hfuel. lia.
    + split; [ lia | ]. split; reflexivity.
  - cbn [while_loop]. destruct (cond st) eqn:Hc.
    + assert (Hi : fix_count st < imax).
      { destruct st as [[i v] m]. unfold fix_step_cond in Hc.
        apply andb_prop in Hc. destruct Hc as [Hi _].
        apply Z.ltb_lt in Hi. exact Hi. }
      assert (Hnext : fix_count (trip st) = fix_count st + 1).
      { destruct st as [[i v] m]. reflexivity. }
      destruct (IH (trip st)) as [k [Hk [Hrun Hstop]]].
      { rewrite Hnext. lia. }
      exists (S k). split; [ rewrite Hnext in Hk; lia | ].
      split; [ | exact Hstop ].
      rewrite fix_step_body_trip. unfold bind. rewrite Hrun. reflexivity.
    + exists 0%nat. split; [ lia | ]. split; [ reflexivity | exact Hc ].
Qed.

(** The mask only loses elements, and an element that is still in it was
    active and has been non-finite at the latest evaluation. *)
Lemma fix_mask_trip (st : FixState) (e : nat) :
  fix_mask (trip st) e = true ->
  fix_mask st e = true /\ is_finite (fix_val (trip st)) e = false.
Proof.
  destruct st as [[i v] m]. unfold fix_mask, fix_val. simpl.
  unfold t_and, t_not. intros H. apply andb_prop in H. destruct H as [H1 H2].
  split; [ exact H1 | ]. apply negb_true_iff in H2. exact H2.
Qed.

Lemma fix_mask_trips (k : nat) (st : FixState) (e : nat) :
  fix_mask (trips k st) e = true ->
  fix_mask st e = true /\
  (forall j, (1 <= j <= k)%nat -> is_finite (fix_val (trips j st)) e = false).
Proof.
  revert st. induction k as [ | k IH]; intros st H.
  - split; [ exact H | ]. intros j Hj. lia.
  - cbn [fix_step_trips] in H. destruct (IH _ H) as [H1 H2].
    destruct (fix_mask_trip _ _ H1) as [H3 H4].
    split; [ exact H3 | ]. intros j Hj.
    destruct j as [ | j]; [ lia | ]. cbn [fix_step_trips].
    destruct j as [ | j]; [ exact H4 | ]. apply H2. lia.
Qed.

(** Conversely, an active element that is non-finite at the initial
    evaluation and at each of the [k] re-evaluations is still in the mask. *)
Lemma fix_mask_trips_complete (k : nat) (st : FixState) (e : nat) :
  fix_mask st e = true ->
  (forall j, (1 <= j <= k)%nat -> is_finite (fix_val (trips j st)) e = false) ->
  fix_mask (trips k st) e = true.
Proof.
  revert st. induction k as [ | k IH]; intros st H0 H.
  - exact H0.
  - cbn [fix_step_trips]. apply IH.
    + specialize (H 1%nat ltac:(lia)). cbn [fix_step_trips] in H.
      destruct st as [[i v] m]. unfold fix_mask, fix_val in *. simpl in *.
      unfold t_and, t_not. rewrite H0, H. reflexivity.
    + intros j Hj. apply (H (S j)). lia.
Qed.

End Repair.

(** ** The ceiling of the repair loop *)

(** A positive [m] of [d] binary digits lies in [[2^(d-1), 2^d)]. *)
Lemma digits2_pos_bounds (m : positive) :
  2 ^ (Zpos (digits2_pos m) - 1) <= Zpos m < 2 ^ Zpos (digits2_pos m).
Proof.
  induction m as [p IH | p IH | ]; cbn [digits2_pos].
  - rewrite Pos2Z.inj_succ.
    replace (Z.succ (Zpos (digits2_pos p)) - 1)
      with (Z.succ (Zpos (digits2_pos p) - 1)) by lia.
    rewrite !Z.pow_succ_r by lia.
    replace (2 ^ Zpos (digits2_pos p))
      with (2 * 2 ^ (Zpos (digits2_pos p) - 1)) in *
      by (rewrite <- Z.pow_succ_r by lia; f_equal; lia).
    lia.
  - rewrite Pos2Z.inj_succ.
    replace (Z.succ (Zpos (digits2_pos p)) - 1)
      with (Z.succ (Zpos (digits2_pos p) - 1)) by lia.
    rewrite !Z.pow_succ_r by lia.
    replace (2 ^ Zpos (digits2_pos p))
      with (2 * 2 ^ (Zpos (digits2_pos p) - 1)) in *
      by (rewrite <- Z.pow_succ_r by lia; f_equal; lia).
    lia.
  - simpl. lia.
Qed.

(** The bounds of [ceiling_of] determine the ceiling. *)
Lemma ceiling_of_unique (m : positive) (e k k' : Z) :
  ceiling_of m e k -> ceiling_of m e k' -> k = k'.
Proof.
  unfold ceiling_of. intros [H0 [H1 H2]] [H0' [H1' H2']].
  destruct (Z.lt_trichotomy k k') as [Hlt | [Heq | Hgt]]; [ | exact Heq | ].
  - exfalso.
    assert (Hp : 2 ^ (1 - k' - e) <= 2 ^ (- k - e))
      by (apply Z.pow_le_mono_r; lia).
    lia.
  - exfalso.
    assert (Hp : 2 ^ (1 - k - e) <= 2 ^ (- k' - e))
      by (apply Z.pow_le_mono_r; lia).
    lia.
Qed.

Section RepairOutcomeProof.

Variables prec emax : Z.
Variable n : nat.
Variable value_and_gradients_function : Oracle.
Variable step_size_shrink_param : float.

Lemma nth_fix_calls (k j : nat) (st : FixState) (d : Call) :
  (j < k)%nat ->
  nth j (fix_step_calls prec emax value_and_gradients_function
           step_size_shrink_param k st) d =
  fix_step_call prec emax step_size_shrink_param
    (fix_step_trips prec emax value_and_gradients_function
       step_size_shrink_param j st).
Proof.
  revert j st. induction k as [ | k IH]; intros j st Hj; [ lia | ].
  destruct j as [ | j]; [ reflexivity | ].
  cbn [fix_step_calls fix_step_trips nth]. apply IH. lia.
Qed.

(** C7: the repair loop makes no oracle call when no active element has a
    non-finite initial evaluation; otherwise each trip multiplies the step
    of every element still under repair by the shrink factor and
    re-evaluates, for at most [iter_max] trips, where [iter_max] is
    [ceil(-log2(eps))] for the machine epsilon [eps = m * 2^e] of the dtype,
    and an element that is still non-finite when the loop stops is marked
    failed. *)
Theorem fix_step_size_repairs (fuel : nat) (val_c_input : ValueAndGradient)
  (active : Tensor bool) (mx : positive) (ex : Z) :
  _machine_eps prec emax = S754_finite false mx ex ->
  (Z.to_nat (iter_max prec emax) <= fuel)%nat ->
  ceiling_of mx ex (iter_max prec emax) /\
  repair_outcome prec emax n value_and_gradients_function
    step_size_shrink_param fuel val_c_input active.
Proof.
  intros Heps Hfuel. split.
  { unfold iter_max. rewrite Heps. cbn [ceil_neg_log2].
    pose proof (digits2_pos_bounds mx) as Hd. unfold ceiling_of.
    replace (- - (ex + Zpos (digits2_pos mx) - 1) - ex)
      with (Zpos (digits2_pos mx) - 1) by lia.
    replace (1 - - (ex + Zpos (digits2_pos mx) - 1) - ex)
      with (Zpos (digits2_pos mx)) by lia.
    split; [ lia | exact Hd ]. }
  revert Hfuel.
  intros Hfuel. unfold repair_outcome.
  set (st0 := fix_step_start val_c_input active).
  destruct (fix_loop_run prec emax n value_and_gradients_function
              step_size_shrink_param fuel st0) as [k [Hk [Hrun Hstop]]].
  { unfold st0, fix_step_start, fix_count. simpl.
    rewrite Z.sub_0_r. exact Hfuel. }
  assert (Hcount :
    fix_count (fix_step_trips prec emax value_and_gradients_function
                 step_size_shrink_param k st0) = Z.of_nat k).
  { rewrite fix_count_trips. reflexivity. }
  exists k. split; [ exact Hrun | ].
  split; [ unfold st0, fix_step_start, fix_count in Hk; simpl in Hk;
           rewrite Z.sub_0_r in Hk; exact Hk | ].
  split; [ exact Hcount | ].
  split; [ apply length_fix_calls | ].
  split; [ | split ].
  - intros Hnone. destruct k as [ | k]; [ reflexivity | exfalso ].
    unfold _fix_step_size in Hrun. fold st0 in Hrun.
    destruct fuel as [ | fuel]; cbn [while_loop] in Hrun;
      unfold st0 at 1, fix_step_start, fix_step_cond in Hrun;
      rewrite Hnone, andb_false_r in Hrun; discriminate Hrun.
  - intros j e Hj. rewrite nth_fix_calls by exact Hj.
    destruct (fix_step_trips prec emax value_and_gradients_function
                step_size_shrink_param j st0) as [[i v] m].
    reflexivity.
  - intros e He Hact Hinit Hall.
    assert (Hmask :
      fix_mask (fix_step_trips prec emax value_and_gradients_function
                  step_size_shrink_param k st0) e = true).
    { apply fix_mask_trips_complete; [ | exact Hall ].
      unfold st0, fix_step_start, fix_mask, t_and, t_not. simpl.
      rewrite Hact, Hinit. reflexivity. }
    split; [ | split; [ exact Hmask | ] ].
    + destruct (fix_step_trips prec emax value_and_gradients_function
                  step_size_shrink_param k st0) as [[i v] m] eqn:Hst.
      unfold fix_step_cond in Hstop. unfold fix_mask in Hmask.
      simpl in Hmask. rewrite (reduce_any_true n m e He Hmask) in Hstop.
      rewrite andb_true_r in Hstop. apply Z.ltb_ge in Hstop.
      unfold fix_count in Hcount. simpl in Hcount. lia.
    + intros val_0 init_converged failed_init prepare_evals.
      unfold init_interval_of, t_or. simpl. rewrite Hmask.
      apply orb_true_r.
Qed.

End RepairOutcomeProof.

(** In float32 the machine epsilon is [2^23 * 2^(-46)] and the ceiling is
    23 trips; the step [10^20] of the scenario is repaired within it. *)
Lemma fix_step_size_repairs_witness :
  _machine_eps F32.prec F32.emax = S754_finite false 8388608 (-46) /\
  (Z.to_nat (iter_max F32.prec F32.emax) <= 23)%nat /\
  ceiling_of 8388608 (-46) (iter_max F32.prec F32.emax) /\
  repair_outcome F32.prec F32.emax 2 F32.parabola RepairScenario.shrink 23
    RepairScenario.val_c_input RepairScenario.active.
Proof.
  assert (H0 : _machine_eps F32.prec F32.emax
               = S754_finite false 8388608 (-46)) by reflexivity.
  assert (H : (Z.to_nat (iter_max F32.prec F32.emax) <= 23)%nat)
    by (vm_compute; lia).
  split; [ exact H0 | ]. split; [ exact H | ].
  exact (fix_step_size_repairs F32.prec F32.emax 2 F32.parabola
           RepairScenario.shrink 23 RepairScenario.val_c_input
           RepairScenario.active 8388608 (-46) H0 H).
Defined.

(** ** One trip of the search loop *)

Lemma val_eq_at_refl (e : nat) (a : ValueAndGradient) : val_eq_at e a a.
Proof. repeat split. Qed.

Lemma val_eq_at_trans (e : nat) (a b c : ValueAndGradient) :
  val_eq_at e a b -> val_eq_at e b c -> val_eq_at e a c.
Proof.
  unfold val_eq_at. intros [H1 [H2 H3]] [H4 [H5 H6]].
  repeat split; congruence.
Qed.

Section Trip.

Variables prec emax : Z.
Variable n : nat.
Variable secant2 :
  Oracle -> ValueAndGradient -> HagerZhangLineSearchResult -> Tensor float ->
  float -> float -> Traced Secant2Result.
Variable update :
  Oracle -> ValueAndGradient -> ValueAndGradient -> ValueAndGradient ->
  Tensor float -> Tensor bool -> Traced UpdateResult.
Variable value_and_gradients_function : Oracle.

Notation vgf := value_and_gradients_function.
Notation val_mid := (bisection_val_mid prec emax vgf).
Notation still_active := (bisection_still_active prec emax vgf).
Notation new_failed := (bisection_new_failed prec emax vgf).
Notation upd := (bisection_update prec emax update vgf).
Notation midpoint := (bisection_midpoint prec emax).
Notation needs := (needs_inner_bisect prec emax).
Notation bisect_args := (inner_bisect_args prec emax).

(** The bisection step always returns: it calls the oracle once, at the
    midpoint, and calls [hzl.update] when an element is still active. *)
Lemma inner_bisection_run (si : HagerZhangLineSearchResult)
  (active : Tensor bool) (f_lim : Tensor float) :
  _line_search_inner_bisection prec emax n update vgf si active f_lim =
  Some
    (if reduce_any n (still_active si active)
     then
       (mkResult (converged si)
          (failed si ||| new_failed si active |||
           up_failed (fst (upd si active f_lim)))
          (func_evals si + 1 + up_num_evals (fst (upd si active f_lim)))
          (iterations si + up_iteration (fst (upd si active f_lim)))
          (up_left (fst (upd si active f_lim)))
          (up_right (fst (upd si active f_lim))),
        midpoint si :: snd (upd si active f_lim))
     else
       (replace_failed_func_evals si (failed si ||| new_failed si active)
          (func_evals si + 1),
        [midpoint si])).
Proof.
  unfold _line_search_inner_bisection, call_oracle, bind, lift, ret.
  fold (val_mid si). fold (still_active si active).
  fold (new_failed si active).
  destruct (reduce_any n (still_active si active)); [ | reflexivity ].
  cbn [left right replace_failed_func_evals failed func_evals iterations
       converged].
  fold (upd si active f_lim).
  destruct (upd si active f_lim) as [u t]. simpl. rewrite app_nil_r.
  reflexivity.
Qed.

(** The shrinkage check always returns. *)
Lemma check_shrinkage_run (shrinkage_param : float) (f_lim : Tensor float)
  (curr sec : HagerZhangLineSearchResult) :
  _do_check_shrinkage prec emax n update vgf shrinkage_param f_lim curr sec =
  if reduce_any n (needs shrinkage_param curr sec)
  then
    _line_search_inner_bisection prec emax n update vgf
      (bisect_args shrinkage_param curr sec) (needs shrinkage_param curr sec)
      f_lim
  else Some (bisect_args shrinkage_param curr sec, []).
Proof. reflexivity. Qed.

End Trip.

(** ** The shrinkage check and the bisection fallback *)

Section ShrinkageCheck.

Variables prec emax : Z.
Variable n : nat.
Variable update :
  Oracle -> ValueAndGradient -> ValueAndGradient -> ValueAndGradient ->
  Tensor float -> Tensor bool -> Traced UpdateResult.
Variable value_and_gradients_function : Oracle.

Notation vgf := value_and_gradients_function.
Notation val_mid := (bisection_val_mid prec emax vgf).
Notation still_active := (bisection_still_active prec emax vgf).
Notation upd := (bisection_update prec emax update vgf).
Notation midpoint := (bisection_midpoint prec emax).
Notation needs := (needs_inner_bisect prec emax).
Notation bisect_args := (inner_bisect_args prec emax).
Notation sufficient := (sufficient_shrinkage prec emax).
Notation flat := (func_is_flat prec emax).

Lemma should_check_flags (sec : HagerZhangLineSearchResult) (e : nat) :
  should_check_shrinkage sec e = true ->
  converged sec e = false /\ failed sec e = false.
Proof.
  unfold should_check_shrinkage, t_not, t_or. intros H.
  apply negb_true_iff in H. apply orb_false_iff in H. exact H.
Qed.

Lemma shrunk_and_flat_at (shrinkage_param : float)
  (curr sec : HagerZhangLineSearchResult) (e : nat) :
  should_check_shrinkage sec e = true ->
  sufficient shrinkage_param curr sec e = true ->
  flat curr sec e = true ->
  converged (bisect_args shrinkage_param curr sec) e = true /\
  needs shrinkage_param curr sec e = false.
Proof.
  intros Hcheck Hs Hf.
  unfold inner_bisect_args, replace_converged, new_converged,
    needs_inner_bisect, t_or, t_and, t_not.
  simpl. rewrite Hcheck, Hs, Hf, orb_true_r. split; reflexivity.
Qed.

Lemma under_shrunk_at (shrinkage_param : float)
  (curr sec : HagerZhangLineSearchResult) (e : nat) :
  should_check_shrinkage sec e = true ->
  sufficient shrinkage_param curr sec e = false ->
  converged (bisect_args shrinkage_param curr sec) e = false /\
  needs shrinkage_param curr sec e = true.
Proof.
  intros Hcheck Hs.
  destruct (should_check_flags sec e Hcheck) as [Hconv _].
  unfold inner_bisect_args, replace_converged, new_converged,
    needs_inner_bisect, t_or, t_and, t_not.
  simpl. rewrite Hconv, Hcheck, Hs. split; reflexivity.
Qed.

(** C1, as amended: for an element that secant2 left active, the check
    marks it converged when the bracket shrank enough and the function is
    flat on the old and the new interval, and then the element is not in the
    bisection mask; with no under-shrunk element nothing is evaluated; an
    under-shrunk element, flat or not, is not marked converged by the check,
    which makes exactly one oracle call of its own, at the midpoint, then
    fails the element if that evaluation is not finite and otherwise hands
    it to [hzl.update]. *)
Theorem shrinkage_then_bisection (shrinkage_param : float)
  (f_lim : Tensor float) (curr sec : HagerZhangLineSearchResult) (e : nat) :
  (e < n)%nat ->
  should_check_shrinkage sec e = true ->
  shrinkage_check_outcome prec emax n update vgf shrinkage_param f_lim curr
    sec e.
Proof.
  intros He Hcheck. unfold shrinkage_check_outcome.
  rewrite check_shrinkage_run.
  destruct (reduce_any n (needs shrinkage_param curr sec)) eqn:Hany.
  - rewrite inner_bisection_run.
    destruct (reduce_any n
                (still_active (bisect_args shrinkage_param curr sec)
                   (needs shrinkage_param curr sec))) eqn:Hstill;
      eexists; eexists; (split; [ reflexivity | ]);
      (split; [ intros Hs Hf;
                exact (shrunk_and_flat_at _ _ _ _ Hcheck Hs Hf) | ]);
      (split; [ discriminate | ]);
      intros Hs;
      destruct (under_shrunk_at _ _ _ _ Hcheck Hs) as [Hnc Hact];
      (split; [ reflexivity | ]); (split; [ exact Hnc | ]).
    + split.
      * intros Hmid. simpl.
        unfold bisection_new_failed, t_or, t_and, t_not.
        rewrite Hact, Hmid. simpl. rewrite orb_true_r. reflexivity.
      * intros Hmid. split; [ | split; reflexivity ].
        unfold bisection_still_active, t_and.
        rewrite Hact, Hmid. reflexivity.
    + split.
      * intros Hmid. simpl.
        unfold bisection_new_failed, t_or, t_and, t_not.
        rewrite Hact, Hmid. simpl. rewrite orb_true_r. reflexivity.
      * intros Hmid. exfalso.
        assert (Hst : still_active (bisect_args shrinkage_param curr sec)
                        (needs shrinkage_param curr sec) e = true).
        { unfold bisection_still_active, t_and.
          rewrite Hact, Hmid. reflexivity. }
        rewrite (reduce_any_true n _ e He Hst) in Hstill. discriminate.
  - eexists; eexists; split; [ reflexivity | ].
    split; [ | split ].
    + intros Hs Hf. exact (shrunk_and_flat_at _ _ _ _ Hcheck Hs Hf).
    + intros _. split; reflexivity.
    + intros Hs. exfalso.
      destruct (under_shrunk_at _ _ _ _ Hcheck Hs) as [_ Hact].
      rewrite (reduce_any_true n _ e He Hact) in Hany. discriminate.
Qed.

End ShrinkageCheck.

(** On the plateau the stand-in secant2 step leaves the element active. *)
Lemma shrinkage_then_bisection_witness :
  (0 < 1)%nat /\
  should_check_shrinkage PlateauScenario.secant2_result 0%nat = true /\
  shrinkage_check_outcome F32.prec F32.emax 1 (Demo.update F32.prec F32.emax)
    Demo.plateau PlateauScenario.gamma_tight PlateauScenario.f_lim
    PlateauScenario.curr_interval PlateauScenario.secant2_result 0%nat.
Proof.
  assert (H0 : (0 < 1)%nat) by lia.
  assert (H1 : should_check_shrinkage PlateauScenario.secant2_result 0%nat
               = true) by (vm_compute; reflexivity).
  split; [ exact H0 | ]. split; [ exact H1 | ].
  exact (shrinkage_then_bisection F32.prec F32.emax 1
           (Demo.update F32.prec F32.emax) Demo.plateau
           PlateauScenario.gamma_tight PlateauScenario.f_lim
           PlateauScenario.curr_interval PlateauScenario.secant2_result
           0%nat H0 H1).
Defined.

(** C1, as stated, fails on the plateau with a shrinkage parameter of 0.4:
    the halved interval is under-shrunk and the function is flat on the old
    and on the new interval, and the check does not mark the element
    converged but evaluates the oracle at the midpoint. *)
Lemma under_shrunk_flat_is_bisected :
  ~ shrinkage_law_as_stated F32.prec F32.emax 1
      (Demo.update F32.prec F32.emax) Demo.plateau.
Proof.
  intros H.
  destruct (_do_check_shrinkage F32.prec F32.emax 1
              (Demo.update F32.prec F32.emax) Demo.plateau
              PlateauScenario.gamma_tight PlateauScenario.f_lim
              PlateauScenario.curr_interval PlateauScenario.secant2_result)
    as [[next tr] | ] eqn:Hrun.
  - assert (Hc : converged next 0%nat = false).
    { assert (Hv : match _do_check_shrinkage F32.prec F32.emax 1
                     (Demo.update F32.prec F32.emax) Demo.plateau
                     PlateauScenario.gamma_tight PlateauScenario.f_lim
                     PlateauScenario.curr_interval
                     PlateauScenario.secant2_result with
                   | Some (r, _) => converged r 0%nat
                   | None => true
                   end = false) by (vm_compute; reflexivity).
      rewrite Hrun in Hv. exact Hv. }
    destruct (H PlateauScenario.gamma_tight PlateauScenario.f_lim
                PlateauScenario.curr_interval PlateauScenario.secant2_result
                0%nat next tr) as [Hflat _].
    + lia.
    + vm_compute. reflexivity.
    + vm_compute. reflexivity.
    + exact Hrun.
    + destruct Hflat as [Hconv _]; [ vm_compute; reflexivity | ].
      rewrite Hc in Hconv. discriminate Hconv.
  - rewrite check_shrinkage_run in Hrun.
    destruct (reduce_any _ _) in Hrun; [ | discriminate Hrun ].
    rewrite inner_bisection_run in Hrun. discriminate Hrun.
Qed.

(** ** The trip as a whole *)

Section TripRun.

Variables prec emax : Z.
Variable n : nat.
Variable secant2 :
  Oracle -> ValueAndGradient -> HagerZhangLineSearchResult -> Tensor float ->
  float -> float -> Traced Secant2Result.
Variable update :
  Oracle -> ValueAndGradient -> ValueAndGradient -> ValueAndGradient ->
  Tensor float -> Tensor bool -> Traced UpdateResult.
Variable value_and_gradients_function : Oracle.

Notation vgf := value_and_gradients_function.

(** A trip is the secant2 step, the shrinkage check when an element is
    still active, and the test that the interval has shrunk to a point. *)
Lemma loop_body_run (val_0 : ValueAndGradient) (f_lim : Tensor float)
  (delta sigma gamma : float) (curr : HagerZhangLineSearchResult) :
  let raw := trip_secant2 secant2 vgf val_0 f_lim delta sigma curr in
  let sec := secant2_result_of curr (fst raw) in
  _loop_body prec emax n secant2 update vgf val_0 f_lim delta sigma gamma curr
  = match (if reduce_any n (should_check_shrinkage sec)
           then _do_check_shrinkage prec emax n update vgf gamma f_lim curr sec
           else Some (sec, [])) with
    | Some (next, t) =>
        Some (replace_converged next
                (converged next ||| interval_shrunk prec emax next),
              snd raw ++ t)
    | None => None
    end.
Proof.
  intros raw sec. unfold _loop_body, bind, lift, ret.
  unfold sec, raw, trip_secant2.
  destruct (secant2 vgf val_0 curr f_lim delta sigma) as [r t0]. simpl.
  destruct (reduce_any n (should_check_shrinkage (secant2_result_of curr r))).
  - destruct (_do_check_shrinkage prec emax n update vgf gamma f_lim curr
                (secant2_result_of curr r)) as [[next t] | ];
      [ | reflexivity ].
    rewrite app_nil_r. reflexivity.
  - simpl. reflexivity.
Qed.

(** The counters and the oracle calls of a trip, case by case. *)
Lemma loop_body_counters (val_0 : ValueAndGradient) (f_lim : Tensor float)
  (delta sigma gamma : float) (curr : HagerZhangLineSearchResult) :
  trip_counters_outcome prec emax n secant2 update vgf val_0 f_lim delta
    sigma gamma curr.
Proof.
  unfold trip_counters_outcome. rewrite loop_body_run.
  set (raw := trip_secant2 secant2 vgf val_0 f_lim delta sigma curr).
  set (sec := secant2_result_of curr (fst raw)).
  destruct (reduce_any n (should_check_shrinkage sec)) eqn:Hcheck.
  - rewrite check_shrinkage_run.
    destruct (reduce_any n (needs_inner_bisect prec emax gamma curr sec))
      eqn:Hany.
    + rewrite inner_bisection_run.
      destruct (reduce_any n
                  (bisection_still_active prec emax vgf
                     (inner_bisect_args prec emax gamma curr sec)
                     (needs_inner_bisect prec emax gamma curr sec)));
        eexists; eexists; (split; [ reflexivity | ]); simpl;
        repeat split; lia.
    + eexists; eexists; split; [ reflexivity | ]. simpl.
      rewrite app_nil_r. repeat split.
  - eexists; eexists; split; [ reflexivity | ]. simpl.
    rewrite app_nil_r. repeat split.
Qed.

End TripRun.

(** ** The monad *)

Lemma bind_Some {A B : Type} (m : M A) (k : A -> M B) (b : B)
  (t : list Call) :
  bind m k = Some (b, t) ->
  exists a t1 t2, m = Some (a, t1) /\ k a = Some (b, t2) /\ t = t1 ++ t2.
Proof.
  unfold bind. destruct m as [[a t1] | ]; [ | discriminate ].
  destruct (k a) as [[b' t2] | ] eqn:Hk; [ | discriminate ].
  intros H. inversion H; subst. exists a, t1, t2. repeat split. exact Hk.
Qed.

(** ** The stand-in primitives act under the mask *)

Lemma demo_bracket_respects_mask (n : nat) (vgf : Oracle) :
  bracket_respects_mask n vgf Demo.bracket.
Proof.
  intros init f_lim mi rho e He Hfrozen. simpl.
  split; [ reflexivity | ]. split; apply val_eq_at_refl.
Qed.

Lemma demo_secant2_respects_mask (prec emax : Z) (n : nat) (vgf : Oracle) :
  secant2_respects_mask n vgf (Demo.secant2 prec emax).
Proof.
  intros val_0 curr f_lim d s e He Hfrozen. unfold frozen in Hfrozen.
  simpl. unfold val_eq_at, val_where, tf_where, t_or, t_and, t_not. simpl.
  rewrite Hfrozen. simpl. rewrite orb_false_r. repeat split.
Qed.

Lemma demo_update_respects_mask (prec emax : Z) (n : nat) (vgf : Oracle) :
  update_respects_mask n vgf (Demo.update prec emax).
Proof.
  intros l r t f_lim active e He Hact.
  simpl. unfold val_eq_at, val_where, tf_where, t_and. simpl.
  rewrite Hact. simpl. repeat split.
Qed.

(** ** The latch *)

Lemma latched_refl (e : nat) (s : HagerZhangLineSearchResult) : latched e s s.
Proof.
  unfold latched. split; [ auto | ]. split; [ auto | ].
  intros _. split; apply val_eq_at_refl.
Qed.

Lemma latched_trans (e : nat) (s1 s2 s3 : HagerZhangLineSearchResult) :
  latched e s1 s2 -> latched e s2 s3 -> latched e s1 s3.
Proof.
  unfold latched, frozen. intros [Hc1 [Hf1 He1]] [Hc2 [Hf2 He2]].
  split; [ auto | ]. split; [ auto | ].
  intros Hfr. destruct (He1 Hfr) as [Hl1 Hr1].
  assert (Hfr2 : converged s2 e || failed s2 e = true).
  { apply orb_true_iff in Hfr. apply orb_true_iff.
    destruct Hfr as [H | H]; [ left | right ]; auto. }
  destruct (He2 Hfr2) as [Hl2 Hr2].
  split; eapply val_eq_at_trans; eassumption.
Qed.

Section Latch.

Variables prec emax : Z.
Variable n : nat.
Variable secant2 :
  Oracle -> ValueAndGradient -> HagerZhangLineSearchResult -> Tensor float ->
  float -> float -> Traced Secant2Result.
Variable update :
  Oracle -> ValueAndGradient -> ValueAndGradient -> ValueAndGradient ->
  Tensor float -> Tensor bool -> Traced UpdateResult.
Variable value_and_gradients_function : Oracle.

Notation vgf := value_and_gradients_function.

Hypothesis secant2_masked : secant2_respects_mask n vgf secant2.
Hypothesis update_masked : update_respects_mask n vgf update.

(** An element outside the mask of the bisection step is untouched by it. *)
Lemma inner_bisection_untouched (si res : HagerZhangLineSearchResult)
  (active : Tensor bool) (f_lim : Tensor float) (tr : list Call) (e : nat) :
  (e < n)%nat ->
  active e = false ->
  _line_search_inner_bisection prec emax n update vgf si active f_lim
  = Some (res, tr) ->
  untouched e si res.
Proof.
  intros He Hact. rewrite inner_bisection_run.
  assert (Hnew : bisection_new_failed prec emax vgf si active e = false).
  { unfold bisection_new_failed, t_and. rewrite Hact. reflexivity. }
  assert (Hstill : bisection_still_active prec emax vgf si active e = false).
  { unfold bisection_still_active, t_and. rewrite Hact. reflexivity. }
  destruct (reduce_any n (bisection_still_active prec emax vgf si active));
    intros H; inversion H; subst; clear H; unfold untouched; simpl.
  - destruct (update_masked (left si) (right si)
                (bisection_val_mid prec emax vgf si) f_lim
                (bisection_still_active prec emax vgf si active) e He Hstill)
      as [Hf [Hl Hr]].
    unfold bisection_update. unfold t_or. rewrite Hnew, Hf.
    rewrite !orb_false_r. repeat split; try apply Hl; try apply Hr.
  - unfold t_or. rewrite Hnew, orb_false_r.
    split; [ reflexivity | ]. split; [ reflexivity | ].
    split; apply val_eq_at_refl.
Qed.

(** An element that is frozen after the secant2 step is untouched by the
    shrinkage check. *)
Lemma check_shrinkage_untouched (gamma : float) (f_lim : Tensor float)
  (curr sec next : HagerZhangLineSearchResult) (tr : list Call) (e : nat) :
  (e < n)%nat ->
  frozen sec e = true ->
  _do_check_shrinkage prec emax n update vgf gamma f_lim curr sec
  = Some (next, tr) ->
  untouched e sec next.
Proof.
  intros He Hfrozen. rewrite check_shrinkage_run.
  assert (Hcheck : should_check_shrinkage sec e = false).
  { unfold should_check_shrinkage, t_not, t_or. unfold frozen in Hfrozen.
    rewrite Hfrozen. reflexivity. }
  assert (Hneeds : needs_inner_bisect prec emax gamma curr sec e = false).
  { unfold needs_inner_bisect, t_and. rewrite Hcheck. reflexivity. }
  assert (Hargs : untouched e sec (inner_bisect_args prec emax gamma curr sec)).
  { unfold untouched, inner_bisect_args, replace_converged, new_converged,
      t_or, t_and. simpl. rewrite Hcheck. simpl. rewrite orb_false_r.
    split; [ reflexivity | ]. split; [ reflexivity | ].
    split; apply val_eq_at_refl. }
  destruct (reduce_any n (needs_inner_bisect prec emax gamma curr sec)).
  - intros Hrun.
    pose proof (inner_bisection_untouched _ _ _ _ _ e He Hneeds Hrun) as Hb.
    destruct Hargs as [A1 [A2 [A3 A4]]]. destruct Hb as [B1 [B2 [B3 B4]]].
    unfold untouched. rewrite B1, B2, A1, A2.
    split; [ reflexivity | ]. split; [ reflexivity | ].
    split; eapply val_eq_at_trans; eassumption.
  - intros H. inversion H; subst. exact Hargs.
Qed.

(** A frozen element is untouched by a trip. *)
Lemma loop_body_untouched (val_0 : ValueAndGradient) (f_lim : Tensor float)
  (delta sigma gamma : float) (curr next : HagerZhangLineSearchResult)
  (tr : list Call) (e : nat) :
  (e < n)%nat ->
  frozen curr e = true ->
  _loop_body prec emax n secant2 update vgf val_0 f_lim delta sigma gamma curr
  = Some (next, tr) ->
  untouched e curr next.
Proof.
  intros He Hfrozen. rewrite loop_body_run.
  set (raw := trip_secant2 secant2 vgf val_0 f_lim delta sigma curr).
  set (sec := secant2_result_of curr (fst raw)).
  destruct (secant2_masked val_0 curr f_lim delta sigma e He Hfrozen)
    as [Sc [Sf [Sl Sr]]].
  fold (trip_secant2 secant2 vgf val_0 f_lim delta sigma curr) in Sc, Sf, Sl, Sr.
  fold raw in Sc, Sf, Sl, Sr.
  assert (Hsec : untouched e curr sec).
  { unfold untouched, sec, secant2_result_of. simpl. auto. }
  assert (Hfrozen_sec : frozen sec e = true).
  { unfold frozen, sec, secant2_result_of. simpl. rewrite Sc, Sf.
    exact Hfrozen. }
  assert (Hnext : forall nx t,
            (if reduce_any n (should_check_shrinkage sec)
             then _do_check_shrinkage prec emax n update vgf gamma f_lim
                    curr sec
             else Some (sec, [])) = Some (nx, t) ->
            untouched e curr nx).
  { intros nx t Hrun.
    assert (Hu : untouched e sec nx).
    { destruct (reduce_any n (should_check_shrinkage sec)).
      - eapply check_shrinkage_untouched; eassumption.
      - inversion Hrun; subst. unfold untouched.
        split; [ reflexivity | ]. split; [ reflexivity | ].
        split; apply val_eq_at_refl. }
    destruct Hsec as [A1 [A2 [A3 A4]]]. destruct Hu as [B1 [B2 [B3 B4]]].
    unfold untouched. rewrite B1, B2, A1, A2.
    split; [ reflexivity | ]. split; [ reflexivity | ].
    split; eapply val_eq_at_trans; eassumption. }
  destruct (if reduce_any n (should_check_shrinkage sec)
            then _do_check_shrinkage prec emax n update vgf gamma f_lim curr
                   sec
            else Some (sec, [])) as [[nx t] | ] eqn:Hrun; [ | discriminate ].
  intros H. inversion H; subst; clear H.
  destruct (Hnext nx t eq_refl) as [N1 [N2 [N3 N4]]].
  unfold untouched, replace_converged. simpl.
  split; [ | split; [ exact N2 | split; assumption ] ].
  unfold t_or, interval_shrunk, t_and, t_not. rewrite N1, N2.
  unfold frozen in Hfrozen.
  destruct (converged curr e); [ reflexivity | ].
  simpl in Hfrozen. rewrite Hfrozen. reflexivity.
Qed.

End Latch.

Section LoopReach.

Variables prec emax : Z.
Variable n : nat.
Variable secant2 :
  Oracle -> ValueAndGradient -> HagerZhangLineSearchResult -> Tensor float ->
  float -> float -> Traced Secant2Result.
Variable update :
  Oracle -> ValueAndGradient -> ValueAndGradient -> ValueAndGradient ->
  Tensor float -> Tensor bool -> Traced UpdateResult.
Variable value_and_gradients_function : Oracle.

Notation vgf := value_and_gradients_function.

(** The result of the loop is the state after some number of trips, and
    the loop condition fails there. *)
Lemma line_search_trips (fuel : nat) (val_0 : ValueAndGradient)
  (f_lim : Tensor float) (max_iterations : Z) (delta sigma gamma : float)
  (s res : HagerZhangLineSearchResult) (tr : list Call) :
  _line_search_after_bracketing prec emax n secant2 update vgf fuel s val_0
    f_lim max_iterations delta sigma gamma = Some (res, tr) ->
  _loop_cond n max_iterations res = false /\
  exists k,
    loop_trips prec emax n secant2 update vgf k val_0 f_lim delta sigma gamma s
    = Some (res, tr).
Proof.
  unfold _line_search_after_bracketing.
  revert s tr. induction fuel as [ | fuel IH]; intros s tr;
    cbn [while_loop]; destruct (_loop_cond n max_iterations s) eqn:Hc;
    intros Hrun; try discriminate Hrun.
  - inversion Hrun; subst. split; [ exact Hc | ]. exists 0%nat. reflexivity.
  - destruct (bind_Some _ _ _ _ Hrun) as [s1 [t1 [t2 [H1 [H2 Ht]]]]].
    destruct (IH _ _ H2) as [Hstop [k Hk]].
    split; [ exact Hstop | ]. exists (S k). cbn [loop_trips].
    unfold bind. rewrite H1, Hk, Ht. reflexivity.
  - inversion Hrun; subst. split; [ exact Hc | ]. exists 0%nat. reflexivity.
Qed.

End LoopReach.

(** ** The entry point *)

Section RepairResult.

Variables prec emax : Z.
Variable n : nat.
Variable value_and_gradients_function : Oracle.

Notation vgf := value_and_gradients_function.

(** Whatever the fuel, a result of the repair loop is the state after some
    number of trips, with the calls of these trips. *)
Lemma fix_loop_trips (shrink : float) (fuel : nat) (st res : FixState)
  (tr : list Call) :
  while_loop fuel (fix_step_cond prec emax n)
    (fix_step_body prec emax vgf shrink) st = Some (res, tr) ->
  exists k,
    res = fix_step_trips prec emax vgf shrink k st /\
    tr = fix_step_calls prec emax vgf shrink k st.
Proof.
  revert st tr. induction fuel as [ | fuel IH]; intros st tr;
    cbn [while_loop]; destruct (fix_step_cond prec emax n st);
    intros Hrun; try discriminate Hrun.
  - inversion Hrun; subst. exists 0%nat. split; reflexivity.
  - rewrite fix_step_body_trip in Hrun.
    destruct (bind_Some _ _ _ _ Hrun) as [s1 [t1 [t2 [H1 [H2 Ht]]]]].
    inversion H1; subst. destruct (IH _ _ H2) as [k [Hk1 Hk2]].
    exists (S k). split; [ exact Hk1 | ]. simpl. rewrite Hk2. reflexivity.
  - inversion Hrun; subst. exists 0%nat. split; reflexivity.
Qed.

(** Only active elements can be left in the mask of the repair loop. *)
Lemma fix_step_size_mask (fuel : nat) (val_c_input : ValueAndGradient)
  (active : Tensor bool) (shrink : float) (st : FixState) (tr : list Call)
  (e : nat) :
  _fix_step_size prec emax n vgf fuel val_c_input active shrink
  = Some (st, tr) ->
  fix_mask st e = true -> active e = true.
Proof.
  unfold _fix_step_size. intros Hrun Hmask.
  destruct (fix_loop_trips _ _ _ _ _ Hrun) as [k [Hk _]]. subst st.
  destruct (fix_mask_trips _ _ _ _ _ _ _ Hmask) as [H0 _].
  unfold fix_mask, t_and in H0. simpl in H0.
  apply andb_prop in H0. destruct H0 as [H0 _]. exact H0.
Qed.

End RepairResult.

Section Entry.

Variables prec emax : Z.
Variable n : nat.
Variable bracket :
  Oracle -> HagerZhangLineSearchResult -> Tensor float -> Z -> float ->
  Traced BracketResult.
Variable secant2 :
  Oracle -> ValueAndGradient -> HagerZhangLineSearchResult -> Tensor float ->
  float -> float -> Traced Secant2Result.
Variable update :
  Oracle -> ValueAndGradient -> ValueAndGradient -> ValueAndGradient ->
  Tensor float -> Tensor bool -> Traced UpdateResult.
Variable value_and_gradients_function : Oracle.

Notation vgf := value_and_gradients_function.

Lemma prepare_args_run (initial_step_size : option (Tensor float))
  (val_initial val_0 : option ValueAndGradient) (eps : float) :
  _prepare_args prec emax vgf initial_step_size val_initial val_0 eps =
  Some
    ((prepared_val_0 vgf val_0,
      prepared_val_initial prec emax vgf initial_step_size val_initial,
      prepared_f_lim prec emax (prepared_val_0 vgf val_0) eps,
      Z.of_nat (length (prepare_calls prec emax initial_step_size
                          val_initial val_0))),
     prepare_calls prec emax initial_step_size val_initial val_0).
Proof. destruct val_initial, val_0; reflexivity. Qed.

(** [hager_zhang] is the preparation, the repair loop, and the bracketing
    and search when an element is active. *)
Lemma hager_zhang_run (fuel : nat) (initial_step_size : option (Tensor float))
  (value_at_initial_step value_at_zero : option ValueAndGradient)
  (converged_arg : option (Tensor bool))
  (eps gamma rho delta sigma shrink : float) (max_iterations : Z) :
  let val_0 := prepared_val_0 vgf value_at_zero in
  let val_initial :=
    prepared_val_initial prec emax vgf initial_step_size
      value_at_initial_step in
  let calls :=
    prepare_calls prec emax initial_step_size value_at_initial_step
      value_at_zero in
  hager_zhang prec emax n bracket secant2 update vgf fuel initial_step_size
    value_at_initial_step value_at_zero converged_arg eps gamma rho delta
    sigma shrink max_iterations =
  match _fix_step_size prec emax n vgf fuel val_initial
          (entry_active val_0 val_initial converged_arg) shrink with
  | None => None
  | Some (st, t1) =>
      let init :=
        entry_init_interval val_0 val_initial converged_arg
          (Z.of_nat (length calls)) st in
      if reduce_any n (~~ failed init &&& ~~ converged init)
      then
        match _bracket_and_search prec emax n bracket secant2 update vgf fuel
                init (prepared_f_lim prec emax val_0 eps) max_iterations
                gamma rho delta sigma with
        | None => None
        | Some (res, t2) => Some (res, calls ++ t1 ++ t2)
        end
      else Some (init, calls ++ t1)
  end.
Proof.
  intros val_0 val_initial calls. unfold hager_zhang.
  rewrite prepare_args_run. unfold bind at 1.
  fold val_0. fold val_initial. fold calls.
  fold (entry_active val_0 val_initial converged_arg).
  unfold bind.
  destruct (_fix_step_size prec emax n vgf fuel val_initial
              (entry_active val_0 val_initial converged_arg) shrink)
    as [[[[i v] m] t1] | ]; [ | reflexivity ].
  fold (entry_failed val_0 val_initial converged_arg).
  change (init_interval_of val_0 v (init_converged_of converged_arg)
            (entry_failed val_0 val_initial converged_arg) m
            (Z.of_nat (length calls)) i)
    with (entry_init_interval val_0 val_initial converged_arg
            (Z.of_nat (length calls)) (i, v, m)).
  set (init := entry_init_interval val_0 val_initial converged_arg
                 (Z.of_nat (length calls)) (i, v, m)).
  destruct (reduce_any n (~~ failed init &&& ~~ converged init)).
  - destruct (_bracket_and_search prec emax n bracket secant2 update vgf fuel
                init (prepared_f_lim prec emax val_0 eps) max_iterations
                gamma rho delta sigma) as [[res t2] | ]; reflexivity.
  - simpl. rewrite app_nil_r. reflexivity.
Qed.

End Entry.

Section PreConverged.

Variables prec emax : Z.
Variable n : nat.
Variable bracket :
  Oracle -> HagerZhangLineSearchResult -> Tensor float -> Z -> float ->
  Traced BracketResult.
Variable secant2 :
  Oracle -> ValueAndGradient -> HagerZhangLineSearchResult -> Tensor float ->
  float -> float -> Traced Secant2Result.
Variable update :
  Oracle -> ValueAndGradient -> ValueAndGradient -> ValueAndGradient ->
  Tensor float -> Tensor bool -> Traced UpdateResult.
Variable value_and_gradients_function : Oracle.

Notation vgf := value_and_gradients_function.

Hypothesis bracket_masked : bracket_respects_mask n vgf bracket.
Hypothesis secant2_masked : secant2_respects_mask n vgf secant2.
Hypothesis update_masked : update_respects_mask n vgf update.

Lemma untouched_frozen (e : nat) (s s' : HagerZhangLineSearchResult) :
  untouched e s s' -> frozen s e = true -> frozen s' e = true.
Proof.
  intros [Hc [Hf _]]. unfold frozen. rewrite Hc, Hf. auto.
Qed.

Lemma untouched_trans (e : nat) (s1 s2 s3 : HagerZhangLineSearchResult) :
  untouched e s1 s2 -> untouched e s2 s3 -> untouched e s1 s3.
Proof.
  intros [A1 [A2 [A3 A4]]] [B1 [B2 [B3 B4]]]. unfold untouched.
  rewrite B1, B2, A1, A2. split; [ reflexivity | ]. split; [ reflexivity | ].
  split; eapply val_eq_at_trans; eassumption.
Qed.

(** A frozen element is untouched by any number of trips. *)
Lemma loop_trips_untouched (val_0 : ValueAndGradient) (f_lim : Tensor float)
  (delta sigma gamma : float) (k : nat)
  (s s' : HagerZhangLineSearchResult) (tr : list Call) (e : nat) :
  (e < n)%nat ->
  frozen s e = true ->
  loop_trips prec emax n secant2 update vgf k val_0 f_lim delta sigma gamma s
  = Some (s', tr) ->
  untouched e s s'.
Proof.
  intros He. revert s tr. induction k as [ | k IH]; intros s tr Hfrozen Hrun.
  - inversion Hrun; subst. unfold untouched.
    split; [ reflexivity | ]. split; [ reflexivity | ].
    split; apply val_eq_at_refl.
  - cbn [loop_trips] in Hrun.
    destruct (bind_Some _ _ _ _ Hrun) as [s1 [t1 [t2 [H1 [H2 _]]]]].
    pose proof (loop_body_untouched prec emax n secant2 update vgf
                  secant2_masked update_masked _ _ _ _ _ _ _ _ e He Hfrozen H1)
      as Hu.
    eapply untouched_trans; [ exact Hu | ].
    eapply IH; [ | exact H2 ]. eapply untouched_frozen; eassumption.
Qed.

(** A frozen element is untouched by the search loop. *)
Lemma line_search_untouched (fuel : nat) (val_0 : ValueAndGradient)
  (f_lim : Tensor float) (max_iterations : Z) (delta sigma gamma : float)
  (s res : HagerZhangLineSearchResult) (tr : list Call) (e : nat) :
  (e < n)%nat ->
  frozen s e = true ->
  _line_search_after_bracketing prec emax n secant2 update vgf fuel s val_0
    f_lim max_iterations delta sigma gamma = Some (res, tr) ->
  untouched e s res.
Proof.
  intros He Hfrozen Hrun.
  destruct (line_search_trips _ _ _ _ _ _ _ _ _ _ _ _ _ _ _ _ Hrun)
    as [_ [k Hk]].
  eapply loop_trips_untouched; eassumption.
Qed.

(** Bracketing and search keep a frozen element's failure flag and end
    points, and a flag that is set stays set. *)
Lemma bracket_and_search_frozen (fuel : nat)
  (init res : HagerZhangLineSearchResult) (f_lim : Tensor float)
  (max_iterations : Z) (gamma rho delta sigma : float) (tr : list Call)
  (e : nat) :
  (e < n)%nat ->
  frozen init e = true ->
  _bracket_and_search prec emax n bracket secant2 update vgf fuel init f_lim
    max_iterations gamma rho delta sigma = Some (res, tr) ->
  (converged init e = true -> converged res e = true) /\
  (converged init e = true -> failed res e = failed init e) /\
  (failed init e = true -> failed res e = true) /\
  val_eq_at e (left res) (left init) /\ val_eq_at e (right res) (right init).
Proof.
  intros He Hfrozen Hrun. unfold _bracket_and_search, lift in Hrun.
  destruct (bind_Some _ _ _ _ Hrun) as [br [t1 [t2 [H1 [H2 _]]]]].
  destruct (bracket_masked init f_lim max_iterations rho e He Hfrozen)
    as [Bf [Bl Br]].
  assert (Hbr : br = fst (bracket vgf init f_lim max_iterations rho)).
  { destruct (bracket vgf init f_lim max_iterations rho) as [b t].
    inversion H1; subst. reflexivity. }
  rewrite <- Hbr in Bf, Bl, Br.
  set (args := line_search_args prec emax init max_iterations br) in *.
  assert (Hargs_c : converged init e = true -> converged args e = true).
  { intros Hc. unfold args, line_search_args, t_or. simpl. rewrite Hc.
    reflexivity. }
  assert (Hargs_f1 : converged init e = true ->
                     failed args e = failed init e).
  { intros Hc. unfold args, line_search_args, t_or, t_and, t_not. simpl.
    rewrite Hc, Bf. simpl. apply orb_false_r. }
  assert (Hargs_f2 : failed init e = true -> failed args e = true).
  { intros Hf. unfold args, line_search_args, t_or. simpl.
    rewrite Bf, Hf. reflexivity. }
  assert (Hargs_frozen : frozen args e = true).
  { unfold frozen in *. apply orb_true_iff in Hfrozen. apply orb_true_iff.
    destruct Hfrozen as [H | H]; [ left | right ]; auto. }
  destruct (line_search_untouched _ _ _ _ _ _ _ _ _ _ e He Hargs_frozen H2)
    as [U1 [U2 [U3 U4]]].
  rewrite U1, U2.
  split; [ exact Hargs_c | ]. split; [ exact Hargs_f1 | ].
  split; [ exact Hargs_f2 | ].
  split; eapply val_eq_at_trans; eassumption.
Qed.

End PreConverged.


(** ** The steps given to the oracle *)

Section RepairCallsProof.

Variables prec emax : Z.
Variable n : nat.
Variable value_and_gradients_function : Oracle.
Variable step_size_shrink_param : float.

Notation vgf := value_and_gradients_function.

Hypothesis oracle_echo : forall c : Tensor float, val_x (vgf c) = c.

(** An element outside the mask stays outside, with the same step. *)
Lemma fix_trips_outside_mask (j : nat) (st : FixState) (e : nat) :
  fix_mask st e = false ->
  fix_mask (fix_step_trips prec emax vgf step_size_shrink_param j st) e
  = false /\
  val_x (fix_val (fix_step_trips prec emax vgf step_size_shrink_param j st)) e
  = val_x (fix_val st) e.
Proof.
  revert st. induction j as [ | j IH]; intros st Hm.
  - split; [ exact Hm | reflexivity ].
  - cbn [fix_step_trips].
    assert (Hstep :
      fix_mask (fix_step_trip prec emax vgf step_size_shrink_param st) e
      = false /\
      val_x (fix_val (fix_step_trip prec emax vgf step_size_shrink_param st)) e
      = val_x (fix_val st) e).
    { destruct st as [[i v] m]. unfold fix_mask, fix_val in *. simpl in *.
      unfold t_and. rewrite Hm. split; [ reflexivity | ].
      rewrite oracle_echo. unfold fix_step_next_c, tf_where. rewrite Hm.
      reflexivity. }
    destruct Hstep as [S1 S2]. destruct (IH _ S1) as [I1 I2].
    split; [ exact I1 | ]. rewrite I2. exact S2.
Qed.

(** The steps of an element that is not under repair when the loop
    starts. *)
Lemma repair_passes_steps_through (val_0 val_initial : ValueAndGradient)
  (active : Tensor bool) (e : nat) :
  fix_mask (fix_step_start val_initial active) e = false ->
  repair_calls_outcome prec emax vgf step_size_shrink_param val_0 val_initial
    active e.
Proof.
  intros Hm k j Hj.
  rewrite nth_fix_calls by exact Hj.
  destruct (fix_trips_outside_mask j _ e Hm) as [T1 T2].
  assert (Hcall :
    fix_step_call prec emax step_size_shrink_param
      (fix_step_trips prec emax vgf step_size_shrink_param j
         (fix_step_start val_initial active)) e = val_x val_initial e).
  { destruct (fix_step_trips prec emax vgf step_size_shrink_param j
                (fix_step_start val_initial active)) as [[i v] m].
    unfold fix_mask, fix_val in T1, T2. simpl in T1, T2.
    unfold fix_step_call, fix_step_next_c, tf_where. rewrite T1. exact T2. }
  rewrite Hcall. split; [ reflexivity | ].
  unfold valid_inputs, t_and, tf_is_finite. intros Hv.
  apply andb_prop in Hv. destruct Hv as [Hv _].
  apply andb_prop in Hv. destruct Hv as [_ Hv]. exact Hv.
Qed.

(** C8, as amended: for an oracle that returns the step it is given, the
    repair loop passes, in each trip, the current step times the shrink
    factor for an element under repair and the current step as it is for
    the others; the step of an element that is not under repair from the
    start is its initial step, finite when its inputs are valid (a
    non-finite step of an invalid element is passed through); the
    bisection step passes [(left.x + right.x) / 2] of every element,
    whatever the mask. *)
Theorem oracle_steps
  (update :
     Oracle -> ValueAndGradient -> ValueAndGradient -> ValueAndGradient ->
     Tensor float -> Tensor bool -> Traced UpdateResult)
  (m2 : positive) (e2 : Z) (val_0 val_initial : ValueAndGradient)
  (active : Tensor bool) (e : nat) :
  ftwo prec emax = S754_finite false m2 e2 ->
  Zpos m2 = 2 ^ (1 - e2) ->
  oracle_steps_outcome prec emax n update vgf step_size_shrink_param m2 e2
    val_0 val_initial active e.
Proof.
  intros Htwo _. unfold oracle_steps_outcome.
  set (st0 := fix_step_start val_initial active).
  split; [ | split; [ | split ] ].
  - intros fuel Hfuel.
    destruct (fix_loop_run prec emax n vgf step_size_shrink_param fuel st0)
      as [k [_ [Hrun _]]].
    { unfold st0, fix_step_start, fix_count. simpl.
      rewrite Z.sub_0_r. exact Hfuel. }
    exists k. exact Hrun.
  - intros k j Hj. rewrite nth_fix_calls by exact Hj.
    destruct (fix_step_trips prec emax vgf step_size_shrink_param j st0)
      as [[i v] m].
    reflexivity.
  - intros Hm. apply repair_passes_steps_through. exact Hm.
  - intros si mask f_lim. rewrite inner_bisection_run.
    destruct (reduce_any n (bisection_still_active prec emax vgf si mask));
      eexists; eexists; eexists; (split; [ reflexivity | ]);
      unfold bisection_midpoint, tf_div, tf_add, broadcast;
      rewrite Htwo; reflexivity.
Qed.

End RepairCallsProof.

(** The parabola returns the step it is given; in float32 the divisor of
    the midpoint is [2^23 * 2^(-22)]; the second step of the repair
    scenario is finite and is not under repair. *)
Lemma oracle_steps_witness :
  (forall c : Tensor float, val_x (F32.parabola c) = c) /\
  ftwo F32.prec F32.emax = S754_finite false 8388608 (-22) /\
  Zpos 8388608 = 2 ^ (1 - -22) /\
  oracle_steps_outcome F32.prec F32.emax 2
    (Hzl.update F32.prec F32.emax 2 Runs.bisect_trips) F32.parabola
    RepairScenario.shrink 8388608 (-22) (F32.parabola (broadcast fzero))
    RepairScenario.val_c_input RepairScenario.active 1%nat.
Proof.
  assert (H0 : forall c : Tensor float, val_x (F32.parabola c) = c)
    by (intros c; reflexivity).
  assert (H1 : ftwo F32.prec F32.emax = S754_finite false 8388608 (-22))
    by reflexivity.
  assert (H2 : Zpos 8388608 = 2 ^ (1 - -22)) by reflexivity.
  split; [ exact H0 | ]. split; [ exact H1 | ]. split; [ exact H2 | ].
  exact (oracle_steps F32.prec F32.emax 2 F32.parabola
           RepairScenario.shrink H0
           (Hzl.update F32.prec F32.emax 2 Runs.bisect_trips)
           8388608 (-22) (F32.parabola (broadcast fzero))
           RepairScenario.val_c_input RepairScenario.active 1%nat H1 H2).
Defined.

(** C8, as stated, fails in float32 on a batch of two steps, [10^20] and an
    infinite one: the first element is repaired, and the call of the repair
    trip passes the infinite step of the second, invalid, element. *)
Lemma repair_passes_infinite_step :
  ~ repair_calls_finite_as_stated F32.prec F32.emax 2 F32.parabola.
Proof.
  intros H.
  assert (Hv : match InfiniteStepScenario.repair with
               | Some (_, c :: _) => float_is_finite (c 1%nat)
               | _ => true
               end = false) by (vm_compute; reflexivity).
  destruct InfiniteStepScenario.repair as [[st tr] | ] eqn:Hrun;
    [ | discriminate Hv ].
  destruct tr as [ | c tr]; [ discriminate Hv | ].
  pose proof (H _ _ _ _ _ _ _ Hrun c (or_introl eq_refl) 1%nat
                ltac:(lia)) as Hfin.
  rewrite Hfin in Hv. discriminate Hv.
Qed.

(** ** The result record on concrete runs *)

(** C2: on the objective with a wall, from the step 4 and with a budget of
    one trip, the trip narrows the bracket [0, 4] to [2^-14, 2 + 2^-15]
    without converging; the loop stops with [iterations = max_iterations =
    1] and the element is returned neither converged nor failed. *)
Theorem exhausted_search_not_failed :
  Runs.summary 0 (Runs.run 1 Runs.wall (broadcast (F32.of_Z 4)) None 1) =
  Some (false, false, 1, F32.ratio 1 16384, F32.ratio 65537 32768).
Proof. vm_compute. reflexivity. Qed.

(** C3: an element supplied as converged, with the evaluations at 0 and at
    the initial step 1 both given: [hager_zhang] calls neither the oracle
    nor the primitives, and the [right] it returns is the evaluation at 0,
    not the evaluation at the initial step. *)
Theorem preconverged_right_is_zero_point :
  forall bracket secant2 update (fuel : nat),
  exists res,
    hager_zhang F32.prec F32.emax 1 bracket secant2 update F32.parabola fuel
      None (Some (Demo.parabola_at 1 1)) (Some (Demo.parabola_at 0 1))
      (Some (broadcast true)) EntryScenario.threshold
      EntryScenario.shrinkage_param EntryScenario.expansion_param
      EntryScenario.sufficient_decrease_param EntryScenario.curvature_param
      EntryScenario.step_size_shrink_param 50 = Some (res, []) /\
    converged res 0%nat = true /\
    val_eq_at 0 (left res) (Demo.parabola_at 0 1) /\
    val_eq_at 0 (right res) (Demo.parabola_at 0 1) /\
    val_x (right res) 0%nat <> val_x (Demo.parabola_at 1 1) 0%nat.
Proof.
  intros bracket secant2 update fuel. rewrite hager_zhang_run. cbv zeta.
  assert (Hfix :
    _fix_step_size F32.prec F32.emax 1 F32.parabola fuel
      (prepared_val_initial F32.prec F32.emax F32.parabola None
         (Some (Demo.parabola_at 1 1)))
      (entry_active (prepared_val_0 F32.parabola (Some (Demo.parabola_at 0 1)))
         (prepared_val_initial F32.prec F32.emax F32.parabola None
            (Some (Demo.parabola_at 1 1)))
         (Some (broadcast true)))
      EntryScenario.step_size_shrink_param
    = Some ((0, Demo.parabola_at 1 1,
             entry_active (Demo.parabola_at 0 1) (Demo.parabola_at 1 1)
               (Some (broadcast true)) &&&
             ~~ is_finite (Demo.parabola_at 1 1)), [])).
  { unfold _fix_step_size. destruct fuel; reflexivity. }
  rewrite Hfix.
  match goal with
  | |- context [ reduce_any 1 ?m ] =>
      assert (Hnone : reduce_any 1 m = false) by (vm_compute; reflexivity);
      rewrite Hnone
  end.
  eexists. split; [ reflexivity | ].
  split; [ reflexivity | ].
  split; [ repeat split | ]. split; [ repeat split | ].
  vm_compute. discriminate.
Qed.

(** C4: on the objective with a wall, from the step 2, the first trip
    narrows the bracket [0, 2] to [1, 2], which is shrunk enough and passes
    for flat, the value at the left end being above the value at the right
    end: the element is returned converged with [left.x = 1] and
    [right.x = 2]. *)
Theorem converged_with_distinct_ends :
  Runs.summary 0 (Runs.run 1 Runs.wall (broadcast (F32.of_Z 2)) None 50) =
  Some (true, false, 1, F32.of_Z 1, F32.of_Z 2) /\
  F32.of_Z 1 <> F32.of_Z 2.
Proof. split; [ vm_compute; reflexivity | vm_compute; discriminate ]. Qed.

(** C10: on a batch of two elements of the parabola, the first supplied as
    converged with the step -1 and the second starting from the step 2.5,
    the first element is not in the initial [failed] mask, and it is
    returned both converged and failed: the secant step on its bracket
    [0, 0] is not finite, and the trip takes the [failed] mask of
    [hzl.secant2] as it is. *)
Theorem preconverged_element_fails :
  entry_failed (F32.parabola (broadcast fzero))
    (F32.parabola EntryScenario.steps) (Some EntryScenario.converged_arg)
    0%nat = false /\
  Runs.summary 0
    (Runs.run 2 F32.parabola EntryScenario.steps
       (Some EntryScenario.converged_arg) 50) =
  Some (true, true, 1, fzero, fzero).
Proof. split; vm_compute; reflexivity. Qed.

(** * Further properties *)

(** ** The bisection step and the end of a trip *)

Section TripExtras.

Variables prec emax : Z.
Variable n : nat.
Variable secant2 :
  Oracle -> ValueAndGradient -> HagerZhangLineSearchResult -> Tensor float ->
  float -> float -> Traced Secant2Result.
Variable update :
  Oracle -> ValueAndGradient -> ValueAndGradient -> ValueAndGradient ->
  Tensor float -> Tensor bool -> Traced UpdateResult.
Variable value_and_gradients_function : Oracle.

Notation vgf := value_and_gradients_function.



End TripExtras.



(** ** The search loop: termination, exit and counters *)

Lemma demo_secant2_counts_calls (prec emax : Z) (vgf : Oracle) :
  secant2_counts_calls vgf (Demo.secant2 prec emax).
Proof. intros val_0 curr f_lim d s. reflexivity. Qed.

Lemma demo_update_counts_calls (prec emax : Z) (vgf : Oracle) :
  update_counts_calls vgf (Demo.update prec emax).
Proof. intros l r t f_lim a. reflexivity. Qed.

Lemma demo_update_trips_nonnegative (prec emax : Z) (vgf : Oracle) :
  update_trips_nonnegative vgf (Demo.update prec emax).
Proof. intros l r t f_lim a. simpl. lia. Qed.

Lemma frozen_all_no_active (n : nat) (s : HagerZhangLineSearchResult) :
  (forall e, (e < n)%nat -> frozen s e = true) ->
  reduce_any n (~~ (converged s ||| failed s)) = false.
Proof.
  intros H. destruct (reduce_any n (~~ (converged s ||| failed s))) eqn:Hr;
    [ | reflexivity ].
  unfold reduce_any in Hr. apply existsb_exists in Hr.
  destruct Hr as [e [Hin He]]. apply in_seq in Hin.
  unfold t_not, t_or in He. specialize (H e ltac:(lia)).
  unfold frozen in H. rewrite H in He. discriminate He.
Qed.

Lemma no_active_frozen_all (n : nat) (s : HagerZhangLineSearchResult) :
  reduce_any n (~~ (converged s ||| failed s)) = false ->
  forall e, (e < n)%nat -> frozen s e = true.
Proof.
  intros H e He. pose proof (reduce_any_false _ _ H e He) as Hf.
  unfold t_not, t_or in Hf. apply negb_false_iff in Hf. exact Hf.
Qed.

Section LoopExtras.

Variables prec emax : Z.
Variable n : nat.
Variable secant2 :
  Oracle -> ValueAndGradient -> HagerZhangLineSearchResult -> Tensor float ->
  float -> float -> Traced Secant2Result.
Variable update :
  Oracle -> ValueAndGradient -> ValueAndGradient -> ValueAndGradient ->
  Tensor float -> Tensor bool -> Traced UpdateResult.
Variable value_and_gradients_function : Oracle.

Notation vgf := value_and_gradients_function.

(** A trip always returns, and adds at least 1 to [iterations]. *)
Lemma loop_body_iterations (val_0 : ValueAndGradient) (f_lim : Tensor float)
  (delta sigma gamma : float) (curr : HagerZhangLineSearchResult) :
  update_trips_nonnegative vgf update ->
  exists next tr,
    _loop_body prec emax n secant2 update vgf val_0 f_lim delta sigma gamma
      curr = Some (next, tr) /\
    iterations curr + 1 <= iterations next.
Proof.
  intros Hu. rewrite loop_body_run. cbv zeta.
  set (sec := secant2_result_of curr
                (fst (trip_secant2 secant2 vgf val_0 f_lim delta sigma curr))).
  destruct (reduce_any n (should_check_shrinkage sec)).
  - rewrite check_shrinkage_run.
    destruct (reduce_any n (needs_inner_bisect prec emax gamma curr sec)).
    + rewrite inner_bisection_run.
      destruct (reduce_any n _);
        eexists; eexists; (split; [ reflexivity | ]); simpl; [ | lia ].
      unfold bisection_update.
      match goal with
      | |- context [ up_iteration (fst (update _ ?l ?r ?t ?fl ?a)) ] =>
          pose proof (Hu l r t fl a) as Hn
      end.
      lia.
    + eexists; eexists; split; [ reflexivity | ]. simpl. lia.
  - eexists; eexists; split; [ reflexivity | ]. simpl. lia.
Qed.

(** Over a trip [func_evals] grows by the number of oracle calls. *)
Lemma loop_body_func_evals (val_0 : ValueAndGradient) (f_lim : Tensor float)
  (delta sigma gamma : float) (curr next : HagerZhangLineSearchResult)
  (tr : list Call) :
  secant2_counts_calls vgf secant2 ->
  update_counts_calls vgf update ->
  _loop_body prec emax n secant2 update vgf val_0 f_lim delta sigma gamma curr
  = Some (next, tr) ->
  func_evals next = func_evals curr + Z.of_nat (length tr).
Proof.
  intros Hs Hu. rewrite loop_body_run. cbv zeta.
  pose proof (Hs val_0 curr f_lim delta sigma) as Hsec. cbv zeta in Hsec.
  fold (trip_secant2 secant2 vgf val_0 f_lim delta sigma curr) in Hsec.
  set (raw := trip_secant2 secant2 vgf val_0 f_lim delta sigma curr) in *.
  set (sec := secant2_result_of curr (fst raw)).
  destruct (reduce_any n (should_check_shrinkage sec)).
  - rewrite check_shrinkage_run.
    destruct (reduce_any n (needs_inner_bisect prec emax gamma curr sec)).
    + rewrite inner_bisection_run.
      destruct (reduce_any n _); intros H; inversion H; subst; clear H;
        simpl; rewrite length_app; simpl.
      * unfold bisection_update.
        match goal with
        | |- context [ up_num_evals (fst (update _ ?l ?r ?t ?fl ?a)) ] =>
            pose proof (Hu l r t fl a) as Hn; cbv zeta in Hn
        end.
        lia.
      * lia.
    + intros H. inversion H; subst; clear H. simpl.
      rewrite app_nil_r. exact Hsec.
  - intros H. inversion H; subst; clear H. simpl.
    rewrite app_nil_r. exact Hsec.
Qed.

(** With a false loop condition the loop returns its argument. *)
Lemma line_search_no_trip (fuel : nat) (s : HagerZhangLineSearchResult)
  (val_0 : ValueAndGradient) (f_lim : Tensor float) (max_iterations : Z)
  (delta sigma gamma : float) :
  _loop_cond n max_iterations s = false ->
  _line_search_after_bracketing prec emax n secant2 update vgf fuel s val_0
    f_lim max_iterations delta sigma gamma = Some (s, []).
Proof.
  intros Hc. unfold _line_search_after_bracketing.
  destruct fuel; cbn [while_loop]; rewrite Hc; reflexivity.
Qed.

(** X3: when [hzl.update] never reports a negative trip count, the search
    loop returns whenever the fuel covers [max_iterations - iterations]
    trips: it makes at most that many trips, and each adds at least 1 to
    [iterations]. *)
Theorem search_terminates (fuel : nat) (s : HagerZhangLineSearchResult)
  (val_0 : ValueAndGradient) (f_lim : Tensor float) (max_iterations : Z)
  (delta sigma gamma : float) :
  update_trips_nonnegative vgf update ->
  (Z.to_nat (max_iterations - iterations s) <= fuel)%nat ->
  search_returns prec emax n secant2 update vgf fuel s val_0 f_lim
    max_iterations delta sigma gamma.
Proof.
  intros Hu. unfold search_returns, _line_search_after_bracketing.
  revert s. induction fuel as [ | fuel IH]; intros s Hfuel.
  - cbn [while_loop]. destruct (_loop_cond n max_iterations s) eqn:Hc.
    + exfalso. unfold _loop_cond in Hc. apply andb_prop in Hc.
      destruct Hc as [Hc _]. apply Z.ltb_lt in Hc. lia.
    + exists 0%nat, s, []. split; [ lia | ]. split; [ reflexivity | ].
      split; [ reflexivity | lia ].
  - cbn [while_loop]. destruct (_loop_cond n max_iterations s) eqn:Hc.
    + assert (Hlt : iterations s < max_iterations).
      { unfold _loop_cond in Hc. apply andb_prop in Hc.
        destruct Hc as [Hc _]. apply Z.ltb_lt in Hc. exact Hc. }
      destruct (loop_body_iterations val_0 f_lim delta sigma gamma s Hu)
        as [s1 [t1 [H1 Hit]]].
      destruct (IH s1) as [k [res [tr [Hk [Hrun [Htrips Hres]]]]]];
        [ lia | ].
      exists (S k), res, (t1 ++ tr). split; [ lia | ].
      split; [ unfold bind; rewrite H1, Hrun; reflexivity | ].
      split; [ cbn [loop_trips]; unfold bind; rewrite H1, Htrips;
               reflexivity | lia ].
    + exists 0%nat, s, []. split; [ lia | ]. split; [ reflexivity | ].
      split; [ reflexivity | lia ].
Qed.

(** X4: the loop stops only when the trip budget is used up or every
    element is converged or failed; entered in such a state it returns its
    argument as it is and calls nothing. *)
Theorem search_exit_condition (fuel : nat) (s : HagerZhangLineSearchResult)
  (val_0 : ValueAndGradient) (f_lim : Tensor float) (max_iterations : Z)
  (delta sigma gamma : float) :
  search_exit prec emax n secant2 update vgf fuel s val_0 f_lim
    max_iterations delta sigma gamma.
Proof.
  unfold search_exit. split.
  - intros res tr Hrun.
    destruct (line_search_trips _ _ _ _ _ _ _ _ _ _ _ _ _ _ _ _ Hrun)
      as [Hstop _].
    unfold _loop_cond in Hstop. apply andb_false_iff in Hstop.
    destruct Hstop as [Hstop | Hstop].
    + left. apply Z.ltb_ge in Hstop. exact Hstop.
    + right. apply no_active_frozen_all. exact Hstop.
  - intros Hdone.
    assert (Hc : _loop_cond n max_iterations s = false).
    { unfold _loop_cond. apply andb_false_iff.
      destruct Hdone as [Hd | Hd].
      - left. apply Z.ltb_ge. exact Hd.
      - right. apply frozen_all_no_active. exact Hd. }
    apply line_search_no_trip. exact Hc.
Qed.

(** X5: when the primitives report the oracle calls they make, [func_evals]
    grows over the search loop by exactly the number of oracle calls made
    in it. *)
Theorem search_func_evals (fuel : nat) (s : HagerZhangLineSearchResult)
  (val_0 : ValueAndGradient) (f_lim : Tensor float) (max_iterations : Z)
  (delta sigma gamma : float) :
  secant2_counts_calls vgf secant2 ->
  update_counts_calls vgf update ->
  search_counts_calls prec emax n secant2 update vgf fuel s val_0 f_lim
    max_iterations delta sigma gamma.
Proof.
  intros Hs Hu res tr Hrun.
  destruct (line_search_trips _ _ _ _ _ _ _ _ _ _ _ _ _ _ _ _ Hrun)
    as [_ [k Hk]].
  clear Hrun. revert s tr Hk. induction k as [ | k IH]; intros s tr Hk.
  - inversion Hk; subst. simpl. lia.
  - cbn [loop_trips] in Hk.
    destruct (bind_Some _ _ _ _ Hk) as [s1 [t1 [t2 [H1 [H2 Ht]]]]].
    rewrite (IH _ _ H2).
    rewrite (loop_body_func_evals _ _ _ _ _ _ _ _ Hs Hu H1).
    subst tr. rewrite length_app. lia.
Qed.

End LoopExtras.

Lemma search_terminates_witness :
  update_trips_nonnegative F32.parabola (Demo.update F32.prec F32.emax) /\
  (Z.to_nat (3 - iterations ParabolaScenario.curr_interval) <= 3)%nat /\
  search_returns F32.prec F32.emax 1 (Demo.secant2 F32.prec F32.emax)
    (Demo.update F32.prec F32.emax) F32.parabola 3
    ParabolaScenario.curr_interval ParabolaScenario.val_0
    ParabolaScenario.f_lim 3 ParabolaScenario.sufficient_decrease_param
    ParabolaScenario.curvature_param ParabolaScenario.gamma_default.
Proof.
  assert (H0 : (Z.to_nat (3 - iterations ParabolaScenario.curr_interval)
                <= 3)%nat) by (vm_compute; lia).
  split; [ apply demo_update_trips_nonnegative | ]. split; [ exact H0 | ].
  exact (search_terminates F32.prec F32.emax 1
           (Demo.secant2 F32.prec F32.emax) (Demo.update F32.prec F32.emax)
           F32.parabola 3 ParabolaScenario.curr_interval
           ParabolaScenario.val_0 ParabolaScenario.f_lim 3
           ParabolaScenario.sufficient_decrease_param
           ParabolaScenario.curvature_param ParabolaScenario.gamma_default
           (demo_update_trips_nonnegative F32.prec F32.emax F32.parabola) H0).
Defined.

Lemma search_func_evals_witness :
  secant2_counts_calls F32.parabola (Demo.secant2 F32.prec F32.emax) /\
  update_counts_calls F32.parabola (Demo.update F32.prec F32.emax) /\
  search_counts_calls F32.prec F32.emax 1 (Demo.secant2 F32.prec F32.emax)
    (Demo.update F32.prec F32.emax) F32.parabola 3
    ParabolaScenario.curr_interval ParabolaScenario.val_0
    ParabolaScenario.f_lim 3 ParabolaScenario.sufficient_decrease_param
    ParabolaScenario.curvature_param ParabolaScenario.gamma_default.
Proof.
  split; [ apply demo_secant2_counts_calls | ].
  split; [ apply demo_update_counts_calls | ].
  exact (search_func_evals F32.prec F32.emax 1
           (Demo.secant2 F32.prec F32.emax) (Demo.update F32.prec F32.emax)
           F32.parabola 3 ParabolaScenario.curr_interval
           ParabolaScenario.val_0 ParabolaScenario.f_lim 3
           ParabolaScenario.sufficient_decrease_param
           ParabolaScenario.curvature_param ParabolaScenario.gamma_default
           (demo_secant2_counts_calls F32.prec F32.emax F32.parabola)
           (demo_update_counts_calls F32.prec F32.emax F32.parabola)).
Defined.

(** ** The entry point: runs without a search, invalid inputs, bracketing *)

Lemma reduce_any_none (n : nat) (m : Tensor bool) :
  (forall e, (e < n)%nat -> m e = false) -> reduce_any n m = false.
Proof.
  intros H. destruct (reduce_any n m) eqn:Hr; [ | reflexivity ].
  unfold reduce_any in Hr. apply existsb_exists in Hr.
  destruct Hr as [e [Hin He]]. apply in_seq in Hin.
  rewrite (H e ltac:(lia)) in He. discriminate He.
Qed.

Section EntryExtras.

Variables prec emax : Z.
Variable n : nat.
Variable bracket :
  Oracle -> HagerZhangLineSearchResult -> Tensor float -> Z -> float ->
  Traced BracketResult.
Variable secant2 :
  Oracle -> ValueAndGradient -> HagerZhangLineSearchResult -> Tensor float ->
  float -> float -> Traced Secant2Result.
Variable update :
  Oracle -> ValueAndGradient -> ValueAndGradient -> ValueAndGradient ->
  Tensor float -> Tensor bool -> Traced UpdateResult.
Variable value_and_gradients_function : Oracle.

Notation vgf := value_and_gradients_function.

(** With nothing to repair the repair loop returns its argument. *)
Lemma fix_step_size_no_trip (fuel : nat) (val_c_input : ValueAndGradient)
  (active : Tensor bool) (shrink : float) :
  reduce_any n (active &&& ~~ is_finite val_c_input) = false ->
  _fix_step_size prec emax n vgf fuel val_c_input active shrink =
  Some (fix_step_start val_c_input active, []).
Proof.
  intros Hnone. unfold _fix_step_size, fix_step_start.
  destruct fuel; cbn [while_loop]; unfold fix_step_cond;
    rewrite Hnone, andb_false_r; reflexivity.
Qed.

(** X6: when no element is active (each one is supplied as converged or
    has invalid inputs), [hager_zhang] returns without repair, bracketing
    or search: the only oracle calls are those of the missing evaluations,
    [iterations] is 0, and each element is converged as supplied or else
    failed. *)
Theorem no_active_element_no_search (fuel : nat)
  (initial_step_size : option (Tensor float))
  (value_at_initial_step value_at_zero : option ValueAndGradient)
  (converged_arg : option (Tensor bool))
  (eps gamma rho delta sigma shrink : float) (max_iterations : Z) :
  (forall e, (e < n)%nat ->
     entry_active (prepared_val_0 vgf value_at_zero)
       (prepared_val_initial prec emax vgf initial_step_size
          value_at_initial_step) converged_arg e = false) ->
  returns_without_search prec emax n bracket secant2 update vgf fuel
    initial_step_size value_at_initial_step value_at_zero converged_arg eps
    gamma rho delta sigma shrink max_iterations.
Proof.
  intros Hnone. unfold returns_without_search. rewrite hager_zhang_run.
  cbv zeta.
  set (val_0 := prepared_val_0 vgf value_at_zero) in *.
  set (val_initial := prepared_val_initial prec emax vgf initial_step_size
                        value_at_initial_step) in *.
  set (calls := prepare_calls prec emax initial_step_size
                  value_at_initial_step value_at_zero).
  set (active := entry_active val_0 val_initial converged_arg) in *.
  assert (Hmask : forall e, (e < n)%nat ->
                    (active &&& ~~ is_finite val_initial) e = false).
  { intros e He. unfold t_and. rewrite (Hnone e He). reflexivity. }
  rewrite (fix_step_size_no_trip fuel val_initial active shrink
             (reduce_any_none _ _ Hmask)).
  set (init := entry_init_interval val_0 val_initial converged_arg
                 (Z.of_nat (length calls))
                 (fix_step_start val_initial active)).
  assert (Hflags : forall e, (e < n)%nat ->
            converged init e = init_converged_of converged_arg e /\
            failed init e = negb (init_converged_of converged_arg e)).
  { intros e He. split; [ reflexivity | ]. pose proof (Hnone e He) as Ha.
    unfold init, entry_init_interval, init_interval_of, entry_failed,
      fix_step_start, fix_mask. simpl.
    unfold active, entry_active, t_or, t_and, t_not in *.
    destruct (init_converged_of converged_arg e);
      destruct (valid_inputs val_0 val_initial e); simpl in *;
      try reflexivity; discriminate Ha. }
  assert (Hinactive : reduce_any n (~~ failed init &&& ~~ converged init)
                      = false).
  { apply reduce_any_none. intros e He.
    destruct (Hflags e He) as [Hc Hf]. unfold t_and, t_not.
    rewrite Hc, Hf. destruct (init_converged_of converged_arg e);
      reflexivity. }
  rewrite Hinactive. rewrite app_nil_r.
  exists init. split; [ reflexivity | ].
  split.
  { unfold calls, prepare_calls.
    destruct value_at_initial_step, value_at_zero; simpl; lia. }
  split; [ reflexivity | ].
  split; [ unfold init, entry_init_interval, init_interval_of, fix_step_start,
             fix_count; simpl; lia | ].
  split; [ reflexivity | ].
  intros e He. destruct (Hflags e He) as [Hc Hf].
  split; [ exact Hc | ]. split; [ exact Hf | ].
  unfold init, entry_init_interval, init_interval_of, val_where, tf_where,
    val_eq_at, fix_step_start, fix_val. simpl.
  destruct (init_converged_of converged_arg e); repeat split.
Qed.

Hypothesis bracket_masked : bracket_respects_mask n vgf bracket.
Hypothesis secant2_masked : secant2_respects_mask n vgf secant2.
Hypothesis update_masked : update_respects_mask n vgf update.




End EntryExtras.

Section BracketExhausted.

Variables prec emax : Z.
Variable n : nat.
Variable bracket :
  Oracle -> HagerZhangLineSearchResult -> Tensor float -> Z -> float ->
  Traced BracketResult.
Variable secant2 :
  Oracle -> ValueAndGradient -> HagerZhangLineSearchResult -> Tensor float ->
  float -> float -> Traced Secant2Result.
Variable update :
  Oracle -> ValueAndGradient -> ValueAndGradient -> ValueAndGradient ->
  Tensor float -> Tensor bool -> Traced UpdateResult.
Variable value_and_gradients_function : Oracle.

Notation vgf := value_and_gradients_function.

(** X10: when bracketing has used up the trip budget, every element that
    is not converged is marked failed, the search loop makes no trip and
    the bracket is returned with the oracle calls of [hzl.bracket] only. *)
Theorem bracket_exhausted_all_failed (fuel : nat)
  (init : HagerZhangLineSearchResult) (f_lim : Tensor float)
  (max_iterations : Z) (gamma rho delta sigma : float) :
  max_iterations <=
  br_iteration (fst (bracket vgf init f_lim max_iterations rho)) ->
  bracket_exhausted_outcome prec emax n bracket secant2 update vgf fuel init
    f_lim max_iterations gamma rho delta sigma.
Proof.
  intros Hex. unfold bracket_exhausted_outcome, _bracket_and_search, lift.
  destruct (bracket vgf init f_lim max_iterations rho) as [br t] eqn:Hbr.
  simpl in Hex. simpl fst. simpl snd.
  set (args := line_search_args prec emax init max_iterations br).
  assert (Hall : forall e, converged args e = false -> failed args e = true).
  { intros e Hc. unfold args, line_search_args in *. simpl in *.
    unfold t_or, t_and, t_not, broadcast in *. rewrite Hc. simpl.
    assert (Hge : (br_iteration br >=? max_iterations) = true)
      by (apply Z.geb_le; lia).
    rewrite Hge. apply orb_true_r. }
  assert (Hcond : _loop_cond n max_iterations args = false).
  { unfold _loop_cond. apply andb_false_iff. right.
    apply reduce_any_none. intros e _. unfold t_not, t_or.
    destruct (converged args e) eqn:Hc; [ reflexivity | ].
    rewrite (Hall e Hc). reflexivity. }
  exists args. split; [ | split; [ reflexivity | exact Hall ] ].
  unfold bind.
  pose proof (line_search_no_trip prec emax n secant2 update vgf fuel args
                (left init) f_lim max_iterations delta sigma gamma Hcond)
    as Hrun.
  unfold args in Hrun. rewrite Hrun, app_nil_r. reflexivity.
Qed.

End BracketExhausted.

(** One element with the initial step -1: no element is active. *)
Lemma no_active_element_no_search_witness :
  (forall e, (e < 1)%nat ->
     entry_active (prepared_val_0 F32.parabola None)
       (prepared_val_initial F32.prec F32.emax F32.parabola
          (Some InvalidScenario.initial_step_size) None) None e = false) /\
  returns_without_search F32.prec F32.emax 1 Demo.bracket
    (Demo.secant2 F32.prec F32.emax) (Demo.update F32.prec F32.emax)
    F32.parabola 50 (Some InvalidScenario.initial_step_size) None None None
    EntryScenario.threshold EntryScenario.shrinkage_param
    EntryScenario.expansion_param EntryScenario.sufficient_decrease_param
    EntryScenario.curvature_param EntryScenario.step_size_shrink_param 50.
Proof.
  assert (H0 : forall e, (e < 1)%nat ->
            entry_active (prepared_val_0 F32.parabola None)
              (prepared_val_initial F32.prec F32.emax F32.parabola
                 (Some InvalidScenario.initial_step_size) None) None e
            = false).
  { intros e He. destruct e as [ | e]; [ vm_compute; reflexivity | lia ]. }
  split; [ exact H0 | ].
  exact (no_active_element_no_search F32.prec F32.emax 1 Demo.bracket
           (Demo.secant2 F32.prec F32.emax) (Demo.update F32.prec F32.emax)
           F32.parabola 50 (Some InvalidScenario.initial_step_size) None None
           None EntryScenario.threshold EntryScenario.shrinkage_param
           EntryScenario.expansion_param
           EntryScenario.sufficient_decrease_param
           EntryScenario.curvature_param
           EntryScenario.step_size_shrink_param 50 H0).
Defined.




(** With a budget of 0 trips the stand-in bracket has used it up. *)
Lemma bracket_exhausted_all_failed_witness :
  0 <= br_iteration
         (fst (Demo.bracket F32.parabola ParabolaScenario.curr_interval
                 ParabolaScenario.f_lim 0 EntryScenario.expansion_param)) /\
  bracket_exhausted_outcome F32.prec F32.emax 1 Demo.bracket
    (Demo.secant2 F32.prec F32.emax) (Demo.update F32.prec F32.emax)
    F32.parabola 50 ParabolaScenario.curr_interval ParabolaScenario.f_lim 0
    EntryScenario.shrinkage_param EntryScenario.expansion_param
    EntryScenario.sufficient_decrease_param EntryScenario.curvature_param.
Proof.
  assert (H0 : 0 <= br_iteration
                      (fst (Demo.bracket F32.parabola
                              ParabolaScenario.curr_interval
                              ParabolaScenario.f_lim 0
                              EntryScenario.expansion_param)))
    by (simpl; lia).
  split; [ exact H0 | ].
  exact (bracket_exhausted_all_failed F32.prec F32.emax 1 Demo.bracket
           (Demo.secant2 F32.prec F32.emax) (Demo.update F32.prec F32.emax)
           F32.parabola 50 ParabolaScenario.curr_interval
           ParabolaScenario.f_lim 0 EntryScenario.shrinkage_param
           EntryScenario.expansion_param
           EntryScenario.sufficient_decrease_param
           EntryScenario.curvature_param H0).
Defined.

(** ** The comparator on NaN, the repair mask, and the two flags *)

(** X11: [_very_close] never holds when one of its arguments is a NaN. *)
Theorem very_close_rejects_nan (prec emax : Z) (x y : Tensor float)
  (i : nat) :
  x i = S754_nan \/ y i = S754_nan ->
  _very_close prec emax x y i = false.
Proof.
  intros H. apply very_close_nan.
  destruct H as [H | H]; rewrite H; [ reflexivity | ].
  destruct (x i); reflexivity.
Qed.

Lemma very_close_rejects_nan_witness :
  (NanScenario.nan_t 0%nat = S754_nan \/ F32.one_t 0%nat = S754_nan) /\
  _very_close F32.prec F32.emax NanScenario.nan_t F32.one_t 0%nat = false.
Proof.
  assert (H : NanScenario.nan_t 0%nat = S754_nan \/
              F32.one_t 0%nat = S754_nan) by (left; reflexivity).
  split; [ exact H | ].
  exact (very_close_rejects_nan F32.prec F32.emax NanScenario.nan_t
           F32.one_t 0%nat H).
Defined.

Section RepairLatch.

Variables prec emax : Z.
Variable value_and_gradients_function : Oracle.
Variable step_size_shrink_param : float.

Notation vgf := value_and_gradients_function.

Lemma fix_step_trips_add (j k : nat) (st : FixState) :
  fix_step_trips prec emax vgf step_size_shrink_param (j + k) st =
  fix_step_trips prec emax vgf step_size_shrink_param k
    (fix_step_trips prec emax vgf step_size_shrink_param j st).
Proof.
  revert st. induction j as [ | j IH]; intros st; [ reflexivity | ].
  simpl. apply IH.
Qed.

(** X12: for an oracle that returns the step it is given, an element that
    has left the mask of the repair loop (its evaluation became finite, or
    it was never under repair) stays out of it, and its step is not shrunk
    again. *)
Theorem repaired_element_is_latched (st : FixState) (j e : nat) :
  (forall c : Tensor float, val_x (vgf c) = c) ->
  fix_mask (fix_step_trips prec emax vgf step_size_shrink_param j st) e
  = false ->
  repair_latched prec emax vgf step_size_shrink_param st j e.
Proof.
  intros Hecho Hm k. rewrite fix_step_trips_add.
  apply (fix_trips_outside_mask prec emax vgf step_size_shrink_param Hecho).
  exact Hm.
Qed.

End RepairLatch.

(** In the repair scenario the first step is finite after one trip. *)
Lemma repaired_element_is_latched_witness :
  (forall c : Tensor float, val_x (F32.parabola c) = c) /\
  fix_mask
    (fix_step_trips F32.prec F32.emax F32.parabola RepairScenario.shrink 1
       (fix_step_start RepairScenario.val_c_input RepairScenario.active))
    0%nat = false /\
  repair_latched F32.prec F32.emax F32.parabola RepairScenario.shrink
    (fix_step_start RepairScenario.val_c_input RepairScenario.active) 1
    0%nat.
Proof.
  assert (H0 : forall c : Tensor float, val_x (F32.parabola c) = c)
    by (intros c; reflexivity).
  assert (H1 : fix_mask
                 (fix_step_trips F32.prec F32.emax F32.parabola
                    RepairScenario.shrink 1
                    (fix_step_start RepairScenario.val_c_input
                       RepairScenario.active)) 0%nat = false)
    by (vm_compute; reflexivity).
  split; [ exact H0 | ]. split; [ exact H1 | ].
  exact (repaired_element_is_latched F32.prec F32.emax F32.parabola
           RepairScenario.shrink
           (fix_step_start RepairScenario.val_c_input RepairScenario.active)
           1 0%nat H0 H1).
Defined.

Section FlagsExclusive.

Variables prec emax : Z.
Variable n : nat.
Variable secant2 :
  Oracle -> ValueAndGradient -> HagerZhangLineSearchResult -> Tensor float ->
  float -> float -> Traced Secant2Result.
Variable update :
  Oracle -> ValueAndGradient -> ValueAndGradient -> ValueAndGradient ->
  Tensor float -> Tensor bool -> Traced UpdateResult.
Variable value_and_gradients_function : Oracle.

Notation vgf := value_and_gradients_function.

Hypothesis update_masked : update_respects_mask n vgf update.

(** The shrinkage check does not give an element a second flag. *)
Lemma check_shrinkage_exclusive (gamma : float) (f_lim : Tensor float)
  (curr sec next : HagerZhangLineSearchResult) (tr : list Call) (e : nat) :
  (e < n)%nat ->
  converged sec e && failed sec e = false ->
  _do_check_shrinkage prec emax n update vgf gamma f_lim curr sec
  = Some (next, tr) ->
  converged next e && failed next e = false.
Proof.
  intros He Hex Hrun. destruct (frozen sec e) eqn:Hfr.
  - destruct (check_shrinkage_untouched prec emax n update vgf update_masked
                _ _ _ _ _ _ e He Hfr Hrun) as [U1 [U2 _]].
    rewrite U1, U2. exact Hex.
  - assert (Hcheck : should_check_shrinkage sec e = true).
    { unfold should_check_shrinkage, t_not, t_or. unfold frozen in Hfr.
      rewrite Hfr. reflexivity. }
    destruct (should_check_flags sec e Hcheck) as [Hc Hf].
    rewrite check_shrinkage_run in Hrun.
    destruct (sufficient_shrinkage prec emax gamma curr sec e) eqn:Hs.
    + (* not in the bisection mask: the failure flag is not set *)
      assert (Hneeds : needs_inner_bisect prec emax gamma curr sec e = false).
      { unfold needs_inner_bisect, t_and, t_not. rewrite Hs.
        apply andb_false_r. }
      assert (Hfail : failed next e = false).
      { destruct (reduce_any n (needs_inner_bisect prec emax gamma curr sec)).
        - destruct (inner_bisection_untouched prec emax n update vgf
                      update_masked _ _ _ _ _ e He Hneeds Hrun)
            as [_ [U2 _]].
          rewrite U2. exact Hf.
        - inversion Hrun; subst. exact Hf. }
      rewrite Hfail. apply andb_false_r.
    + (* in the bisection mask: the convergence flag is not set *)
      destruct (under_shrunk_at prec emax gamma curr sec e Hcheck Hs)
        as [Hnc Hact].
      assert (Hconv : converged next e = false).
      { rewrite (reduce_any_true n _ e He Hact) in Hrun.
        rewrite inner_bisection_run in Hrun.
        destruct (reduce_any n _) in Hrun; inversion Hrun; subst;
          exact Hnc. }
      rewrite Hconv. reflexivity.
Qed.


End FlagsExclusive.


(** * The primitives taken from the specification meet the contracts *)

Lemma val_where_false (c : Tensor bool) (t f : ValueAndGradient) (e : nat) :
  c e = false -> val_eq_at e (val_where c t f) f.
Proof.
  intros H. unfold val_eq_at, val_where, tf_where. simpl. rewrite H.
  repeat split.
Qed.

Section HzlProps.

Variables prec emax : Z.
Variable n : nat.
Variable bisect_trips : nat.
Variable vgf : Oracle.

Notation bisect_body := (Hzl.bisect_body prec emax).
Notation bisect_loop := (Hzl.bisect_loop prec emax n).
Notation hzl_update := (Hzl.update prec emax n bisect_trips).
Notation hzl_secant2 := (Hzl.secant2 prec emax n bisect_trips).

(** A stopped element is left alone by a trip of the bisection. *)
Lemma bisect_body_stopped (f_lim : Tensor float)
  (curr : Hzl.IntermediateResult) (e : nat) :
  Hzl.ir_stopped curr e = true ->
  Hzl.ir_stopped (fst (bisect_body vgf f_lim curr)) e = true /\
  val_eq_at e (Hzl.ir_left (fst (bisect_body vgf f_lim curr)))
    (Hzl.ir_left curr) /\
  val_eq_at e (Hzl.ir_right (fst (bisect_body vgf f_lim curr)))
    (Hzl.ir_right curr).
Proof.
  intros Hs. unfold Hzl.bisect_body. simpl.
  split; [ unfold t_or; rewrite Hs; reflexivity | ].
  split; apply val_where_false; unfold t_and, t_not, t_or; rewrite Hs;
    reflexivity.
Qed.

Lemma bisect_loop_stopped (fuel : nat) (f_lim : Tensor float)
  (curr : Hzl.IntermediateResult) (e : nat) :
  Hzl.ir_stopped curr e = true ->
  val_eq_at e (Hzl.ir_left (fst (bisect_loop fuel vgf f_lim curr)))
    (Hzl.ir_left curr) /\
  val_eq_at e (Hzl.ir_right (fst (bisect_loop fuel vgf f_lim curr)))
    (Hzl.ir_right curr).
Proof.
  revert curr. induction fuel as [ | fuel IH]; intros curr Hs.
  - simpl. split; apply val_eq_at_refl.
  - cbn [Hzl.bisect_loop].
    destruct (negb (reduce_all n (Hzl.ir_stopped curr)));
      [ | simpl; split; apply val_eq_at_refl ].
    destruct (bisect_body_stopped f_lim curr e Hs) as [B1 [B2 B3]].
    destruct (bisect_body vgf f_lim curr) as [next c] eqn:Hb.
    simpl in B1, B2, B3. destruct (IH next B1) as [I1 I2].
    destruct (bisect_loop fuel vgf f_lim next) as [res t]. simpl in *.
    split; eapply val_eq_at_trans; eassumption.
Qed.

(** The bisection counts no trip, and one evaluation for each call. *)
Lemma bisect_loop_counts (fuel : nat) (f_lim : Tensor float)
  (curr : Hzl.IntermediateResult) :
  Hzl.ir_iteration (fst (bisect_loop fuel vgf f_lim curr))
  = Hzl.ir_iteration curr /\
  Hzl.ir_num_evals (fst (bisect_loop fuel vgf f_lim curr))
  = Hzl.ir_num_evals curr
    + Z.of_nat (length (snd (bisect_loop fuel vgf f_lim curr))).
Proof.
  revert curr. induction fuel as [ | fuel IH]; intros curr.
  - simpl. split; lia.
  - cbn [Hzl.bisect_loop].
    destruct (negb (reduce_all n (Hzl.ir_stopped curr)));
      [ | simpl; split; lia ].
    destruct (bisect_body vgf f_lim curr) as [next c] eqn:Hb.
    assert (Hnext : Hzl.ir_iteration next = Hzl.ir_iteration curr /\
                    Hzl.ir_num_evals next = Hzl.ir_num_evals curr + 1).
    { unfold Hzl.bisect_body in Hb. inversion Hb; subst. simpl.
      split; reflexivity. }
    destruct (IH next) as [I1 I2].
    destruct (bisect_loop fuel vgf f_lim next) as [res t]. simpl in *.
    destruct Hnext as [N1 N2]. split; lia.
Qed.

(** [update] moves no end point outside its mask. *)
Lemma hzl_update_keeps_masked : update_keeps_masked n vgf hzl_update.
Proof.
  intros val_left val_right val_trial f_lim active e He Hact.
  unfold Hzl.update, Hzl._bisect.
  set (within := tf_lt (val_x val_left) (val_x val_trial) &&&
                 tf_lt (val_x val_trial) (val_x val_right) &&& active).
  assert (Hw : within e = false).
  { unfold within, t_and. rewrite Hact. apply andb_false_r. }
  match goal with
  | |- context [ bisect_loop bisect_trips vgf f_lim ?s ] =>
      set (start := s)
  end.
  assert (Hs : Hzl.ir_stopped start e = true).
  { unfold start. simpl. unfold t_not, t_and. rewrite Hw. reflexivity. }
  destruct (bisect_loop_stopped bisect_trips f_lim start e Hs) as [B1 B2].
  destruct (bisect_loop bisect_trips vgf f_lim start) as [r t].
  simpl in *. split.
  - eapply val_eq_at_trans; [ exact B1 | ].
    apply val_where_false. unfold t_and. rewrite Hw. reflexivity.
  - eapply val_eq_at_trans; [ exact B2 | ].
    apply val_where_false. unfold t_and. rewrite Hw. reflexivity.
Qed.

(** [update] counts no trip and reports the calls it makes. *)
Lemma hzl_update_reports_no_trip : update_reports_no_trip vgf hzl_update.
Proof.
  intros val_left val_right val_trial f_lim active.
  unfold Hzl.update, Hzl._bisect.
  match goal with
  | |- context [ bisect_loop bisect_trips vgf f_lim ?s ] =>
      set (start := s)
  end.
  destruct (bisect_loop_counts bisect_trips f_lim start) as [C1 _].
  destruct (bisect_loop bisect_trips vgf f_lim start) as [r t].
  simpl in *. exact C1.
Qed.

Lemma hzl_update_counts_calls : update_counts_calls vgf hzl_update.
Proof.
  intros val_left val_right val_trial f_lim active. cbv zeta.
  unfold Hzl.update, Hzl._bisect.
  match goal with
  | |- context [ bisect_loop bisect_trips vgf f_lim ?s ] =>
      set (start := s)
  end.
  destruct (bisect_loop_counts bisect_trips f_lim start) as [_ C2].
  destruct (bisect_loop bisect_trips vgf f_lim start) as [r t].
  simpl in *. exact C2.
Qed.

End HzlProps.

Section HzlSecant2.

Variables prec emax : Z.
Variable n : nat.
Variable bisect_trips : nat.
Variable vgf : Oracle.

Notation hzl_update := (Hzl.update prec emax n bisect_trips).
Notation hzl_secant2 := (Hzl.secant2 prec emax n bisect_trips).
Notation inner_update := (Hzl._secant2_inner_update prec emax n bisect_trips).
Notation inner := (Hzl._secant2_inner prec emax n bisect_trips).

Lemma inner_update_kept (initial : Hzl.Secant2State)
  (val_0 val_c : ValueAndGradient) (f_lim : Tensor float) (d s : float)
  (e : nat) :
  (e < n)%nat ->
  kept e initial (fst (inner_update vgf initial val_0 val_c f_lim d s)).
Proof.
  intros He. unfold Hzl._secant2_inner_update.
  set (new_failed := Hzl.st_active initial &&& ~~ is_finite val_c).
  set (found := Hzl.st_active initial &&& ~~ new_failed &&&
                Hzl._satisfies_wolfe prec emax val_0 val_c f_lim d s).
  set (active := Hzl.st_active initial &&& ~~ new_failed &&& ~~ found).
  assert (Hfound : Hzl.st_active initial e = false -> found e = false).
  { intros Ha. unfold found, t_and. rewrite Ha. reflexivity. }
  assert (Hactive : Hzl.st_active initial e = false -> active e = false).
  { intros Ha. unfold active, t_and. rewrite Ha. reflexivity. }
  destruct (reduce_any n active).
  - pose proof (hzl_update_keeps_masked prec emax n bisect_trips vgf
                  (val_where found val_c (Hzl.st_left initial))
                  (val_where found val_c (Hzl.st_right initial))
                  val_c f_lim active e He) as Hu.
    cbv zeta in Hu.
    destruct (hzl_update vgf (val_where found val_c (Hzl.st_left initial))
                (val_where found val_c (Hzl.st_right initial)) val_c f_lim
                active) as [u t].
    simpl in *. unfold kept. simpl.
    split; [ intros H; unfold t_or; rewrite H; reflexivity | ].
    split; [ intros H; unfold t_or; rewrite H; reflexivity | ].
    intros Ha. destruct (Hu (Hactive Ha)) as [U1 U2].
    split; (eapply val_eq_at_trans; [ eassumption | ]);
      apply val_where_false; exact (Hfound Ha).
  - unfold kept. simpl.
    split; [ intros H; unfold t_or; rewrite H; reflexivity | ].
    split; [ intros H; unfold t_or; rewrite H; reflexivity | ].
    intros Ha. split; apply val_where_false; exact (Hfound Ha).
Qed.

Lemma inner_update_counts (initial : Hzl.Secant2State)
  (val_0 val_c : ValueAndGradient) (f_lim : Tensor float) (d s : float) :
  Hzl.st_num_evals (fst (inner_update vgf initial val_0 val_c f_lim d s))
  = Hzl.st_num_evals initial
    + Z.of_nat (length (snd (inner_update vgf initial val_0 val_c f_lim d s))).
Proof.
  unfold Hzl._secant2_inner_update.
  destruct (reduce_any n _); [ | simpl; lia ].
  match goal with
  | |- context [ hzl_update vgf ?l ?r ?t ?fl ?a ] =>
      pose proof (hzl_update_counts_calls prec emax n bisect_trips vgf
                    l r t fl a) as Hc;
      cbv zeta in Hc; destruct (hzl_update vgf l r t fl a) as [u tr]
  end.
  simpl in *. lia.
Qed.

Lemma inner_kept (initial : Hzl.Secant2State)
  (val_0 val_c : ValueAndGradient) (f_lim : Tensor float) (d s : float)
  (e : nat) :
  (e < n)%nat ->
  kept e initial (fst (inner vgf initial val_0 val_c f_lim d s)).
Proof.
  intros He. unfold Hzl._secant2_inner.
  destruct (hzl_update vgf (Hzl.st_left initial) (Hzl.st_right initial)
              val_c f_lim (Hzl.st_active initial)) as [u t1].
  set (active := Hzl.st_active initial &&& ~~ up_failed u).
  set (val_left := val_where active (up_left u) (Hzl.st_left initial)).
  set (val_right := val_where active (up_right u) (Hzl.st_right initial)).
  assert (Hactive : Hzl.st_active initial e = false -> active e = false).
  { intros Ha. unfold active, t_and. rewrite Ha. reflexivity. }
  match goal with
  | |- context [ if reduce_any n (Hzl.st_active ?na) then _ else _ ] =>
      set (next_args := na)
  end.
  assert (Hnext : kept e initial next_args).
  { unfold kept, next_args. simpl.
    split; [ auto | ].
    split; [ intros H; unfold t_or; rewrite H; reflexivity | ].
    intros Ha. split; apply val_where_false; exact (Hactive Ha). }
  destruct (reduce_any n (Hzl.st_active next_args)); [ | exact Hnext ].
  match goal with
  | |- context [ inner_update vgf next_args val_0 ?v f_lim d s ] =>
      pose proof (inner_update_kept next_args val_0 v f_lim d s e He) as Hk;
      destruct (inner_update vgf next_args val_0 v f_lim d s) as [res t2]
  end.
  simpl in *. destruct Hnext as [N1 [N2 N3]]. destruct Hk as [K1 [K2 K3]].
  unfold kept. split; [ auto | ]. split; [ auto | ].
  intros Ha. destruct (N3 Ha) as [N4 N5].
  assert (Hna : Hzl.st_active next_args e = false).
  { unfold next_args. simpl. unfold t_and. rewrite (Hactive Ha).
    reflexivity. }
  destruct (K3 Hna) as [K4 K5].
  split; eapply val_eq_at_trans; eassumption.
Qed.

Lemma inner_counts (initial : Hzl.Secant2State)
  (val_0 val_c : ValueAndGradient) (f_lim : Tensor float) (d s : float) :
  Hzl.st_num_evals (fst (inner vgf initial val_0 val_c f_lim d s))
  = Hzl.st_num_evals initial
    + Z.of_nat (length (snd (inner vgf initial val_0 val_c f_lim d s))).
Proof.
  unfold Hzl._secant2_inner.
  pose proof (hzl_update_counts_calls prec emax n bisect_trips vgf
                (Hzl.st_left initial) (Hzl.st_right initial) val_c f_lim
                (Hzl.st_active initial)) as Hc.
  cbv zeta in Hc.
  destruct (hzl_update vgf (Hzl.st_left initial) (Hzl.st_right initial)
              val_c f_lim (Hzl.st_active initial)) as [u t1].
  simpl in Hc.
  set (active := Hzl.st_active initial &&& ~~ up_failed u).
  set (val_left := val_where active (up_left u) (Hzl.st_left initial)).
  set (val_right := val_where active (up_right u) (Hzl.st_right initial)).
  match goal with
  | |- context [ tf_le (val_x val_left) ?c &&& tf_le ?c (val_x val_right) ] =>
      set (next_c := c);
      set (in_range :=
             tf_le (val_x val_left) next_c &&& tf_le next_c (val_x val_right))
  end.
  match goal with
  | |- context [ reduce_any n (in_range &&& ?m) ] => set (is_new := m)
  end.
  match goal with
  | |- context [ if reduce_any n (Hzl.st_active ?na) then _ else _ ] =>
      set (next_args := na)
  end.
  destruct (reduce_any n (Hzl.st_active next_args)) eqn:Hany.
  - match goal with
    | |- context [ inner_update vgf next_args val_0 ?v f_lim d s ] =>
        pose proof (inner_update_counts next_args val_0 v f_lim d s) as Hk;
        destruct (inner_update vgf next_args val_0 v f_lim d s) as [res t2]
    end.
    simpl in *. rewrite Hk. rewrite !length_app.
    destruct (reduce_any n (in_range &&& is_new)) eqn:Hx;
      try rewrite Hx in Hk; simpl; unfold Call in *; lia.
  - (* no element in range: no element asks for the extra evaluation *)
    assert (Hx : reduce_any n (in_range &&& is_new) = false).
    { apply reduce_any_none. intros e He.
      pose proof (reduce_any_false n _ Hany e He) as Hf.
      unfold next_args in Hf. simpl in Hf.
      unfold is_new. unfold t_and, t_or in *.
      destruct (active e); simpl in *.
      - fold (t_and (tf_le (val_x val_left) next_c)
                    (tf_le next_c (val_x val_right)) e) in Hf.
        change ((in_range e) = false) in Hf. rewrite Hf. reflexivity.
      - apply andb_false_r. }
    simpl. rewrite Hx. simpl. lia.
Qed.

Lemma hzl_secant2_keeps_frozen : secant2_keeps_frozen n vgf hzl_secant2.
Proof.
  unfold secant2_keeps_frozen. intros val_0 si f_lim d s e He Hfr0.
  cbv zeta. unfold Hzl.secant2.
  set (c := Hzl._secant prec emax (left si) (right si)).
  set (val_c := vgf c).
  set (failed_c := failed si ||| ~~ is_finite val_c).
  set (converged_c :=
         converged si |||
         (~~ failed_c &&& Hzl._satisfies_wolfe prec emax val_0 val_c f_lim d s)).
  set (new_converged := converged_c &&& ~~ converged si).
  match goal with
  | |- context [ if reduce_any n (Hzl.st_active ?ia) then _ else _ ] =>
      set (initial := ia)
  end.
  assert (Hinit :
    (converged si e = true -> Hzl.st_converged initial e = true) /\
    (failed si e = true -> Hzl.st_failed initial e = true) /\
    (frozen si e = true ->
     Hzl.st_active initial e = false /\
     val_eq_at e (Hzl.st_left initial) (left si) /\
     val_eq_at e (Hzl.st_right initial) (right si))).
  { unfold initial. simpl.
    split; [ intros H; unfold converged_c, t_or; rewrite H; reflexivity | ].
    split; [ intros H; unfold failed_c, t_or; rewrite H; reflexivity | ].
    intros Hfr. unfold frozen, t_or in Hfr.
    assert (Hnc : new_converged e = false).
    { unfold new_converged, converged_c, failed_c, t_and, t_or, t_not.
      destruct (converged si e); simpl; [ reflexivity | ].
      simpl in Hfr. rewrite Hfr. reflexivity. }
    split.
    - unfold converged_c, failed_c, t_and, t_or, t_not.
      destruct (converged si e); simpl.
      + apply andb_false_r.
      + simpl in Hfr. rewrite Hfr. reflexivity.
    - split; apply val_where_false; exact Hnc. }
  destruct Hinit as [I1 [I2 I3]].
  destruct (reduce_any n (Hzl.st_active initial)).
  - pose proof (inner_kept initial val_0 val_c f_lim d s e He) as Hk.
    destruct (inner vgf initial val_0 val_c f_lim d s) as [res t].
    simpl in *. destruct Hk as [K1 [K2 K3]].
    split; [ auto | ]. split; [ auto | ].
    destruct (I3 Hfr0) as [Ia [Il Ir]].
    destruct (K3 Ia) as [K4 K5].
    split; eapply val_eq_at_trans; eassumption.
  - simpl. split; [ auto | ]. split; [ auto | ].
    destruct (I3 Hfr0) as [Ia [Il Ir]]. split; assumption.
Qed.

Lemma hzl_secant2_counts_calls : secant2_counts_calls vgf hzl_secant2.
Proof.
  unfold secant2_counts_calls. intros val_0 si f_lim d s.
  unfold Hzl.secant2.
  match goal with
  | |- context [ if reduce_any n (Hzl.st_active ?ia) then _ else _ ] =>
      set (initial := ia)
  end.
  destruct (reduce_any n (Hzl.st_active initial)).
  - match goal with
    | |- context [ inner vgf initial val_0 ?v f_lim d s ] =>
        pose proof (inner_counts initial val_0 v f_lim d s) as Hk;
        destruct (inner vgf initial val_0 v f_lim d s) as [res t]
    end.
    simpl in *. rewrite Hk. unfold initial. simpl. lia.
  - simpl. lia.
Qed.

End HzlSecant2.

(** ** The latch of the search loop *)

Section LatchOfSearch.

Variables prec emax : Z.
Variable n : nat.
Variable secant2 :
  Oracle -> ValueAndGradient -> HagerZhangLineSearchResult -> Tensor float ->
  float -> float -> Traced Secant2Result.
Variable update :
  Oracle -> ValueAndGradient -> ValueAndGradient -> ValueAndGradient ->
  Tensor float -> Tensor bool -> Traced UpdateResult.
Variable value_and_gradients_function : Oracle.

Notation vgf := value_and_gradients_function.

Hypothesis secant2_keeps : secant2_keeps_frozen n vgf secant2.
Hypothesis update_keeps : update_keeps_masked n vgf update.

(** The bisection step keeps the flags that are set, and the end points of
    an element outside its mask. *)
Lemma inner_bisection_latched (si res : HagerZhangLineSearchResult)
  (active : Tensor bool) (f_lim : Tensor float) (tr : list Call) (e : nat) :
  (e < n)%nat ->
  (frozen si e = true -> active e = false) ->
  _line_search_inner_bisection prec emax n update vgf si active f_lim
  = Some (res, tr) ->
  latched e si res.
Proof.
  intros He Hact. rewrite inner_bisection_run.
  destruct (reduce_any n (bisection_still_active prec emax vgf si active));
    intros H; inversion H; subst; clear H; unfold latched; simpl.
  - split; [ auto | ].
    split; [ intros Hf; unfold t_or; rewrite Hf; reflexivity | ].
    intros Hfr.
    assert (Hstill : bisection_still_active prec emax vgf si active e = false).
    { unfold bisection_still_active, t_and. rewrite (Hact Hfr). reflexivity. }
    exact (update_keeps (left si) (right si)
             (bisection_val_mid prec emax vgf si) f_lim
             (bisection_still_active prec emax vgf si active) e He Hstill).
  - split; [ auto | ].
    split; [ intros Hf; unfold t_or; rewrite Hf; reflexivity | ].
    intros _. split; apply val_eq_at_refl.
Qed.

(** The shrinkage check keeps the flags that are set, and the end points of
    an element that is frozen after the secant2 step. *)
Lemma check_shrinkage_latched (gamma : float) (f_lim : Tensor float)
  (curr sec next : HagerZhangLineSearchResult) (tr : list Call) (e : nat) :
  (e < n)%nat ->
  _do_check_shrinkage prec emax n update vgf gamma f_lim curr sec
  = Some (next, tr) ->
  latched e sec next.
Proof.
  intros He. rewrite check_shrinkage_run.
  assert (Hargs : latched e sec (inner_bisect_args prec emax gamma curr sec)).
  { unfold latched, inner_bisect_args, replace_converged. simpl.
    split; [ intros Hc; unfold t_or; rewrite Hc; reflexivity | ].
    split; [ auto | ]. intros _. split; apply val_eq_at_refl. }
  assert (Hneeds :
    frozen (inner_bisect_args prec emax gamma curr sec) e = true ->
    needs_inner_bisect prec emax gamma curr sec e = false).
  { unfold frozen, inner_bisect_args, replace_converged, new_converged,
      needs_inner_bisect, should_check_shrinkage, t_or, t_and, t_not. simpl.
    destruct (converged sec e); simpl; [ reflexivity | ].
    destruct (failed sec e); simpl; [ reflexivity | ].
    destruct (sufficient_shrinkage prec emax gamma curr sec e); simpl;
      [ reflexivity | ].
    intros H. discriminate H. }
  destruct (reduce_any n (needs_inner_bisect prec emax gamma curr sec)).
  - intros Hrun. eapply latched_trans; [ exact Hargs | ].
    eapply inner_bisection_latched; eassumption.
  - intros H. inversion H; subst. exact Hargs.
Qed.

(** Every element is latched over a trip. *)
Lemma trip_latched (val_0 : ValueAndGradient) (f_lim : Tensor float)
  (delta sigma gamma : float) (curr next : HagerZhangLineSearchResult)
  (tr : list Call) (e : nat) :
  (e < n)%nat ->
  _loop_body prec emax n secant2 update vgf val_0 f_lim delta sigma gamma curr
  = Some (next, tr) ->
  latched e curr next.
Proof.
  intros He. rewrite loop_body_run.
  set (raw := trip_secant2 secant2 vgf val_0 f_lim delta sigma curr).
  set (sec := secant2_result_of curr (fst raw)).
  assert (Hsec : latched e curr sec).
  { destruct (frozen curr e) eqn:Hfrozen.
    - destruct (secant2_keeps val_0 curr f_lim delta sigma e He Hfrozen)
        as [Sc [Sf [Sl Sr]]].
      unfold latched, sec, raw, trip_secant2, secant2_result_of. simpl.
      split; [ exact Sc | ]. split; [ exact Sf | ].
      intros _. split; assumption.
    - unfold frozen in Hfrozen. apply orb_false_iff in Hfrozen.
      destruct Hfrozen as [Hc Hf]. unfold latched, frozen.
      rewrite Hc, Hf. simpl. repeat split; discriminate. }
  destruct (if reduce_any n (should_check_shrinkage sec)
            then _do_check_shrinkage prec emax n update vgf gamma f_lim curr
                   sec
            else Some (sec, [])) as [[nx t] | ] eqn:Hrun; [ | discriminate ].
  intros H. inversion H; subst; clear H.
  assert (Hnx : latched e sec nx).
  { destruct (reduce_any n (should_check_shrinkage sec)).
    - eapply check_shrinkage_latched; eassumption.
    - inversion Hrun; subst. apply latched_refl. }
  eapply latched_trans; [ exact Hsec | ].
  eapply latched_trans; [ exact Hnx | ].
  unfold latched, replace_converged. simpl.
  split; [ intros Hc; unfold t_or; rewrite Hc; reflexivity | ].
  split; [ auto | ]. intros _. split; apply val_eq_at_refl.
Qed.

Lemma trips_latched (val_0 : ValueAndGradient) (f_lim : Tensor float)
  (delta sigma gamma : float) (k : nat)
  (s s' : HagerZhangLineSearchResult) (tr : list Call) (e : nat) :
  (e < n)%nat ->
  loop_trips prec emax n secant2 update vgf k val_0 f_lim delta sigma gamma s
  = Some (s', tr) ->
  latched e s s'.
Proof.
  intros He. revert s tr. induction k as [ | k IH]; intros s tr Hrun.
  - inversion Hrun; subst. apply latched_refl.
  - cbn [loop_trips] in Hrun.
    destruct (bind_Some _ _ _ _ Hrun) as [s1 [t1 [t2 [H1 [H2 _]]]]].
    eapply latched_trans.
    + eapply trip_latched; eassumption.
    + eapply IH; eassumption.
Qed.

End LatchOfSearch.

(** C5: once an element is converged or failed, the flag stays set and both
    end points stay the same through every later trip and in the result of
    the loop, provided [hzl.secant2] keeps the flags and the end points of a
    frozen element and [hzl.update] moves no end point outside its mask. *)
Theorem search_latch (prec emax : Z) (n : nat)
  (secant2 :
     Oracle -> ValueAndGradient -> HagerZhangLineSearchResult ->
     Tensor float -> float -> float -> Traced Secant2Result)
  (update :
     Oracle -> ValueAndGradient -> ValueAndGradient -> ValueAndGradient ->
     Tensor float -> Tensor bool -> Traced UpdateResult)
  (value_and_gradients_function : Oracle)
  (val_0 : ValueAndGradient) (f_lim : Tensor float)
  (delta sigma gamma : float) (e : nat) :
  secant2_keeps_frozen n value_and_gradients_function secant2 ->
  update_keeps_masked n value_and_gradients_function update ->
  (e < n)%nat ->
  latch_law prec emax n secant2 update value_and_gradients_function val_0
    f_lim delta sigma gamma e.
Proof.
  intros Hs Hu He. split.
  - intros s s' [k [tr Hrun]].
    eapply trips_latched; eassumption.
  - intros fuel max_iterations s res tr Hrun.
    destruct (line_search_trips _ _ _ _ _ _ _ _ _ _ _ _ _ _ _ _ Hrun)
      as [_ [k Hk]].
    eapply trips_latched; eassumption.
Qed.

(** The secant2 step and the update of the library keep what is frozen: the
    search on the parabola is latched. *)
Lemma search_latch_witness :
  secant2_keeps_frozen 1 F32.parabola
    (Hzl.secant2 F32.prec F32.emax 1 Runs.bisect_trips) /\
  update_keeps_masked 1 F32.parabola
    (Hzl.update F32.prec F32.emax 1 Runs.bisect_trips) /\
  (0 < 1)%nat /\
  latch_law F32.prec F32.emax 1
    (Hzl.secant2 F32.prec F32.emax 1 Runs.bisect_trips)
    (Hzl.update F32.prec F32.emax 1 Runs.bisect_trips) F32.parabola
    ParabolaScenario.val_0 ParabolaScenario.f_lim
    ParabolaScenario.sufficient_decrease_param
    ParabolaScenario.curvature_param ParabolaScenario.gamma_default 0%nat.
Proof.
  assert (H0 : (0 < 1)%nat) by lia.
  assert (Hs := hzl_secant2_keeps_frozen F32.prec F32.emax 1
                  Runs.bisect_trips F32.parabola).
  assert (Hu := hzl_update_keeps_masked F32.prec F32.emax 1
                  Runs.bisect_trips F32.parabola).
  split; [ exact Hs | ]. split; [ exact Hu | ]. split; [ exact H0 | ].
  exact (search_latch F32.prec F32.emax 1
           (Hzl.secant2 F32.prec F32.emax 1 Runs.bisect_trips)
           (Hzl.update F32.prec F32.emax 1 Runs.bisect_trips) F32.parabola
           ParabolaScenario.val_0 ParabolaScenario.f_lim
           ParabolaScenario.sufficient_decrease_param
           ParabolaScenario.curvature_param ParabolaScenario.gamma_default
           0%nat Hs Hu H0).
Defined.

(** ** The counters of a trip *)

(** C6: every trip of the search loop returns with [iterations] grown by
    exactly 1 and [func_evals] grown by exactly the number of oracle calls
    issued in the trip, and no midpoint is evaluated when no element is in
    the bisection mask; [hzl.secant2] and [hzl.update] count their own
    calls, and [hzl.update] reports no trip of its own. *)
Theorem trip_adds_one_iteration (prec emax : Z) (n : nat)
  (secant2 :
     Oracle -> ValueAndGradient -> HagerZhangLineSearchResult ->
     Tensor float -> float -> float -> Traced Secant2Result)
  (update :
     Oracle -> ValueAndGradient -> ValueAndGradient -> ValueAndGradient ->
     Tensor float -> Tensor bool -> Traced UpdateResult)
  (value_and_gradients_function : Oracle)
  (val_0 : ValueAndGradient) (f_lim : Tensor float)
  (delta sigma gamma : float) (curr : HagerZhangLineSearchResult) :
  secant2_counts_calls value_and_gradients_function secant2 ->
  update_counts_calls value_and_gradients_function update ->
  update_reports_no_trip value_and_gradients_function update ->
  trip_counts_outcome prec emax n secant2 update value_and_gradients_function
    val_0 f_lim delta sigma gamma curr.
Proof.
  intros Hs Hu Hz.
  pose proof (loop_body_counters prec emax n secant2 update
                value_and_gradients_function val_0 f_lim delta sigma gamma
                curr) as Hc.
  unfold trip_counters_outcome in Hc. unfold trip_counts_outcome.
  pose proof (Hs val_0 curr f_lim delta sigma) as Hraw. cbv zeta in Hraw.
  fold (trip_secant2 secant2 value_and_gradients_function val_0 f_lim delta
          sigma curr) in Hraw.
  cbv zeta in Hc |- *.
  set (raw := trip_secant2 secant2 value_and_gradients_function val_0 f_lim
                delta sigma curr) in *.
  set (sec := secant2_result_of curr (fst raw)) in *.
  destruct Hc as [next [tr [Hrun Hcase]]].
  exists next, tr. split; [ exact Hrun | ].
  destruct (reduce_any n (should_check_shrinkage sec) &&
            reduce_any n (needs_inner_bisect prec emax gamma curr sec)).
  - match type of Hcase with
    | if reduce_any n ?still then _ else _ =>
        destruct (reduce_any n still)
    end.
    + destruct Hcase as [Hi [Hf Ht]].
      unfold bisection_update in Hi, Hf, Ht.
      match type of Hi with
      | context [ update ?v ?l ?r ?t ?fl ?a ] =>
          pose proof (Hz l r t fl a) as Hzero;
          pose proof (Hu l r t fl a) as Hcount; cbv zeta in Hcount;
          destruct (update v l r t fl a) as [u tu]
      end.
      simpl in *. subst tr.
      split; [ lia | ]. split; [ | discriminate ].
      rewrite length_app. simpl. unfold Call in *. lia.
    + destruct Hcase as [Hi [Hf Ht]]. subst tr.
      split; [ lia | ]. split; [ | discriminate ].
      rewrite length_app. simpl. unfold Call in *. lia.
  - destruct Hcase as [Hi [Hf Ht]]. subst tr.
    split; [ lia | ]. split; [ | reflexivity ]. unfold Call in *. lia.
Qed.

(** The steps of the library count their calls and the update reports no
    trip: a trip from the parabola scenario adds 1. *)
Lemma trip_adds_one_iteration_witness :
  secant2_counts_calls F32.parabola
    (Hzl.secant2 F32.prec F32.emax 1 Runs.bisect_trips) /\
  update_counts_calls F32.parabola
    (Hzl.update F32.prec F32.emax 1 Runs.bisect_trips) /\
  update_reports_no_trip F32.parabola
    (Hzl.update F32.prec F32.emax 1 Runs.bisect_trips) /\
  trip_counts_outcome F32.prec F32.emax 1
    (Hzl.secant2 F32.prec F32.emax 1 Runs.bisect_trips)
    (Hzl.update F32.prec F32.emax 1 Runs.bisect_trips) F32.parabola
    ParabolaScenario.val_0 ParabolaScenario.f_lim
    ParabolaScenario.sufficient_decrease_param
    ParabolaScenario.curvature_param ParabolaScenario.gamma_default
    ParabolaScenario.curr_interval.
Proof.
  assert (Hs := hzl_secant2_counts_calls F32.prec F32.emax 1
                  Runs.bisect_trips F32.parabola).
  assert (Hu := hzl_update_counts_calls F32.prec F32.emax 1
                  Runs.bisect_trips F32.parabola).
  assert (Hz := hzl_update_reports_no_trip F32.prec F32.emax 1
                  Runs.bisect_trips F32.parabola).
  split; [ exact Hs | ]. split; [ exact Hu | ]. split; [ exact Hz | ].
  exact (trip_adds_one_iteration F32.prec F32.emax 1
           (Hzl.secant2 F32.prec F32.emax 1 Runs.bisect_trips)
           (Hzl.update F32.prec F32.emax 1 Runs.bisect_trips) F32.parabola
           ParabolaScenario.val_0 ParabolaScenario.f_lim
           ParabolaScenario.sufficient_decrease_param
           ParabolaScenario.curvature_param ParabolaScenario.gamma_default
           ParabolaScenario.curr_interval Hs Hu Hz).
Defined.
